(** * PDFSmartTools: the native edge processor ([edge_processor.cpp])

    A shallow embedding of the two JNI entry points of
    [android/app/src/main/cpp/edge_processor.cpp]:

    - [detectDocumentContour]: the contour scan that keeps the largest
      four-vertex polygon, the corner ordering and the conversion of the
      corners to [jfloat];
    - [enhanceAndWarp]: the polygon length guard, the inference of the output
      size from the four corners, the warp, the adaptive threshold and the
      JPEG write.

    Numbers are modelled as the C++ code has them: [int] is a 32-bit integer,
    [jfloat] an IEEE-754 binary32 and [double] a binary64, both through the
    Standard Library's executable specification [SpecFloat].  OpenCV, libm and
    the C++ standard library are not code of the repository: they are an
    interface ([OpenCV], [Platform]) the two functions are written against.
    Side effects (log lines, the image written to disk) are collected in a
    trace; behaviour that C++ leaves undefined is the [None] of the [io]
    monad.

    The JNI strings are plain strings here; of [GetStringUTFChars] and
    [ReleaseStringUTFChars] the model keeps the one place where a string is
    read after its release (line 21, released on line 18), which is
    undefined.  Left out: the exceptions an OpenCV call may throw, the calls
    being total functions of the interface; what is proved of a run is proved
    of a run in which they return. *)

From Stdlib Require Import String.
From Stdlib Require Import ZArith Lia List Bool Permutation Sorted.
From Stdlib Require Import Floats.SpecFloat.
Import ListNotations.
Local Open Scope string_scope.
Local Open Scope list_scope.
Local Open Scope Z_scope.

(** ** Machine numbers *)

(** C++ [int]: 32 bits, two's complement. *)
Definition INT_MIN : Z := -2147483648.
Definition INT_MAX : Z := 2147483647.

Definition in_int (z : Z) : bool := (INT_MIN <=? z) && (z <=? INT_MAX).

Record int : Type := mk_int { int_val : Z; int_range : in_int int_val = true }.

Definition jfloat : Type := spec_float.
Definition double : Type := spec_float.

(** IEEE-754 binary32, the format of [jfloat], [float] and [Point2f]. *)
Module F32.
Definition prec : Z := 24.
Definition emax : Z := 128.

(** [(float)i] for an integer [i]: round to nearest, ties to even. *)
Definition of_Z (z : Z) : jfloat := binary_normalize prec emax z 0 false.
Definition of_int (i : int) : jfloat := of_Z (int_val i).

(** [(float)d] for a double [d]. *)
Definition of_double (d : double) : jfloat :=
  match d with
  | S754_finite s m e => binary_normalize prec emax (cond_Zopp s (Zpos m)) e s
  | _ => d
  end.

Definition sub (a b : jfloat) : jfloat := SFsub prec emax a b.
Definition leb (a b : jfloat) : bool := SFleb a b.
End F32.

(** IEEE-754 binary64, the format of [double]. *)
Module F64.
Definition prec : Z := 53.
Definition emax : Z := 1024.

Definition of_Z (z : Z) : double := binary_normalize prec emax z 0 false.

(** The implicit widening of a [float] to [double]; it is exact. *)
Definition of_float (f : jfloat) : double :=
  match f with
  | S754_finite s m e => binary_normalize prec emax (cond_Zopp s (Zpos m)) e s
  | _ => f
  end.

Definition mul (a b : double) : double := SFmul prec emax a b.
Definition div (a b : double) : double := SFdiv prec emax a b.
Definition ltb (a b : double) : bool := SFltb a b.
Definition leb (a b : double) : bool := SFleb a b.
Definition fabs (a : double) : double := SFabs a.

(** [std::max(a, b)] is [(a < b) ? b : a]. *)
Definition max (a b : double) : double := if ltb a b then b else a.

(** The magnitude of a finite double with its fraction dropped. *)
Definition trunc_mag (m : positive) (e : Z) : Z :=
  if 0 <=? e then Zpos m * 2 ^ e else Zpos m / 2 ^ (- e).

(** [(int)d]: truncation toward zero.  The conversion is undefined in C++
    when [d] is a NaN, an infinity or outside the range of [int]. *)
Definition to_int (d : double) : option Z :=
  match d with
  | S754_zero _ => Some 0
  | S754_finite s m e =>
      let t := cond_Zopp s (trunc_mag m e) in
      if in_int t then Some t else None
  | _ => None
  end.

(** The literal [0.02]: the double nearest to 2/100. *)
Definition lit_0_02 : double := div (of_Z 2) (of_Z 100).
End F64.

(** The exact value of a float when that value is an integer. *)
Definition integral_value (f : spec_float) : option Z :=
  match f with
  | S754_zero _ => Some 0
  | S754_finite s m e =>
      if 0 <=? e then Some (cond_Zopp s (Zpos m * 2 ^ e))
      else if Zpos m mod 2 ^ (- e) =? 0 then Some (cond_Zopp s (Zpos m / 2 ^ (- e)))
      else None
  | _ => None
  end.

(** *** The binary32 nearest to an integer

    [F32.of_Z] runs the rounding of [SpecFloat].  [nearest24] states its result
    in closed form, as a 24-bit mantissa and an exponent: an integer of at most
    24 bits is shifted into place unchanged; a longer one loses its low [k]
    bits, rounded to nearest with ties to even, and a mantissa the rounding
    carries to [2 ^ 24] is halved. *)
Definition digits (z : Z) : Z := Z.log2 z + 1.

Definition round_up (q r half : Z) : bool := (half <? r) || ((r =? half) && Z.odd q).

Definition renormalised (m k : Z) : Z * Z :=
  if m =? 2 ^ 24 then (2 ^ 23, k + 1) else (m, k).

Definition nearest24 (z : Z) : Z * Z :=
  let d := digits z in
  if d <=? 24 then (z * 2 ^ (24 - d), d - 24)
  else
    let k := d - 24 in
    let q := z / 2 ^ k in
    renormalised (if round_up q (z mod 2 ^ k) (2 ^ (k - 1)) then q + 1 else q) k.

Definition F32_of_nearest (s : bool) (z : Z) : jfloat :=
  S754_finite s (Z.to_pos (fst (nearest24 z))) (snd (nearest24 z)).

(** Exponent first, then mantissa: the order of two positive floats. *)
Definition lex_le (a b : Z * Z) : Prop :=
  snd a < snd b \/ snd a = snd b /\ fst a <= fst b.

(** Follows the specification's words: the ceiling of a double, the size
    the specification gives the rectified image. *)
Definition ceiling (d : double) : option Z :=
  match d with
  | S754_zero _ => Some 0
  | S754_finite s m e =>
      if 0 <=? e then Some (cond_Zopp s (Zpos m * 2 ^ e))
      else Some (- (cond_Zopp (negb s) (Zpos m) / 2 ^ (- e)))
  | _ => None
  end.

(** ** OpenCV value types *)

(** [cv::Point] is [Point_<int>]. *)
Record Point : Type := mk_Point { pt_x : int; pt_y : int }.

(** [cv::Point2f] is [Point_<float>]. *)
Record Point2f : Type := mk_Point2f { ptf_x : jfloat; ptf_y : jfloat }.

Record Size : Type := mk_Size { width : Z; height : Z }.

Definition vector (A : Type) : Type := list A.

Inductive ColorConversionCodes : Type := COLOR_BGR2GRAY | COLOR_BGR2RGB.
Inductive RetrievalModes : Type := RETR_EXTERNAL | RETR_LIST | RETR_CCOMP | RETR_TREE.
Inductive ContourApproximationModes : Type := CHAIN_APPROX_NONE | CHAIN_APPROX_SIMPLE.
Inductive AdaptiveThresholdTypes : Type := ADAPTIVE_THRESH_MEAN_C | ADAPTIVE_THRESH_GAUSSIAN_C.
Inductive ThresholdTypes : Type := THRESH_BINARY | THRESH_BINARY_INV.

Definition IMWRITE_JPEG_QUALITY : Z := 1.

Definition jboolean : Type := bool.
Definition JNI_TRUE : jboolean := true.
Definition JNI_FALSE : jboolean := false.

(** ** The libraries the file is written against *)

(** libm and the C++ standard library.  [hypot] is called on two [float]
    arguments and its result is stored in a [double]; with the overloads of
    [<cmath>] in scope the call is [std::hypot(float, float)], whose [float]
    result is widened.  [std::sort] is called with a comparison function. *)
Class Platform : Type := {
  hypot : jfloat -> jfloat -> double;
  std_sort : (Point -> Point -> bool) -> vector Point -> vector Point
}.

(** The OpenCV calls of [edge_processor.cpp], with the arguments the file
    passes, and two observers of a [Mat]: [Mat::empty] and [Mat::size]. *)
Class OpenCV : Type := {
  Mat : Type;
  Mat_empty : Mat -> bool;
  Mat_size : Mat -> Size;
  imread : string -> Mat;
  imwrite : string -> Mat -> vector Z -> bool;
  cvtColor : Mat -> ColorConversionCodes -> Mat;
  GaussianBlur : Mat -> Size -> double -> Mat;
  Canny : Mat -> double -> double -> Mat;
  findContours : Mat -> RetrievalModes -> ContourApproximationModes -> vector (vector Point);
  contourArea : vector Point -> double;
  arcLength : vector Point -> bool -> double;
  approxPolyDP : vector Point -> double -> bool -> vector Point;
  getPerspectiveTransform : vector Point2f -> vector Point2f -> Mat;
  warpPerspective : Mat -> Mat -> Size -> Mat;
  adaptiveThreshold :
    Mat -> double -> AdaptiveThresholdTypes -> ThresholdTypes -> Z -> double -> Mat
}.

(** ** The two JNI entry points *)

Section EdgeProcessor.
Context {os : Platform} {cv : OpenCV}.

(** What a call leaves behind: a line of the Android log, or a file handed to
    [imwrite] together with the answer of [imwrite]. *)
Inductive log_arg : Type := arg_str (s : string) | arg_int (n : Z).

Inductive event : Type :=
| ALOGE (fmt : string) (arg : log_arg)
| IMWRITE (path : string) (img : Mat) (params : vector Z) (ok : bool).

(** A run returns a value and the events in program order; [None] is
    behaviour the C++ standard leaves undefined. *)
Definition io (A : Type) : Type := option (A * list event).

Definition ret {A : Type} (a : A) : io A := Some (a, []).
Definition undefined {A : Type} : io A := None.
Definition emit (e : event) : io unit := Some (tt, [e]).

Definition bind {A B : Type} (m : io A) (f : A -> io B) : io B :=
  match m with
  | None => None
  | Some (a, t) =>
      match f a with
      | None => None
      | Some (b, t') => Some (b, t ++ t')
      end
  end.

Notation "x <- m ;; k" := (bind m (fun x => k))
  (at level 61, m at next level, right associativity).
Notation "m ;;; k" := (bind m (fun _ => k))
  (at level 61, right associativity).

(** Reading the characters of a JNI string after [ReleaseStringUTFChars] gave
    them back: the pointer dangles, the read is undefined. *)
Definition read_released (s : string) : io string := undefined.

(** [(int)d] inside a run. *)
Definition cast_int (d : double) : io Z :=
  match F64.to_int d with
  | Some z => ret z
  | None => undefined
  end.

(** *** detectDocumentContour *)

(** Lines 25 to 31: the edge map of the image and its contours. *)
Definition edge_contours (img : Mat) : vector (vector Point) :=
  let gray := cvtColor img COLOR_BGR2GRAY in
  let blurred := GaussianBlur gray (mk_Size 5 5) (F64.of_Z 0) in
  let edged := Canny blurred (F64.of_Z 75) (F64.of_Z 200) in
  findContours edged RETR_LIST CHAIN_APPROX_SIMPLE.

(** Line 40: [approxPolyDP(c, approx, 0.02 * arcLength(c, true), true)]. *)
Definition approx_of (c : vector Point) : vector Point :=
  approxPolyDP c (F64.mul F64.lit_0_02 (arcLength c true)) true.

(** Lines 37 to 44: the body of the loop, on the pair [(maxArea, best)]. *)
Definition scan_contour (st : double * vector Point) (c : vector Point)
  : double * vector Point :=
  let '(maxArea, best) := st in
  let area := contourArea c in
  if F64.ltb area (F64.of_Z 1000) then st
  else
    let approx := approx_of c in
    if (length approx =? 4)%nat && F64.ltb maxArea (F64.fabs (contourArea approx))
    then (F64.fabs (contourArea approx), approx)
    else st.

(** Lines 33 to 45: [maxArea = 0], [best] empty, then the loop. *)
Definition scan_contours (contours : vector (vector Point)) : double * vector Point :=
  fold_left scan_contour contours (F64.of_Z 0, []).

(** The comparison handed to [std::sort] on line 54. *)
Definition by_y (a b : Point) : bool := int_val (pt_y a) <? int_val (pt_y b).

(** Lines 54 to 59.  [std::sort] works in place, so [best] still has its four
    elements when they are indexed; a [std_sort] that returned another number
    of elements would make the indexing undefined. *)
Definition order_corners (best : vector Point) : io (Point * Point * Point * Point) :=
  match std_sort by_y best with
  | [b0; b1; b2; b3] =>
      let tl := if int_val (pt_x b0) <? int_val (pt_x b1) then b0 else b1 in
      let tr := if int_val (pt_x b0) <? int_val (pt_x b1) then b1 else b0 in
      let bl := if int_val (pt_x b2) <? int_val (pt_x b3) then b2 else b3 in
      let br := if int_val (pt_x b2) <? int_val (pt_x b3) then b3 else b2 in
      ret (tl, tr, br, bl)
  | _ => undefined
  end.

(** Lines 61 to 65: the eight coordinates, each cast to [jfloat]. *)
Definition coords_of (q : Point * Point * Point * Point) : vector jfloat :=
  let '(tl, tr, br, bl) := q in
  [ F32.of_int (pt_x tl); F32.of_int (pt_y tl);
    F32.of_int (pt_x tr); F32.of_int (pt_y tr);
    F32.of_int (pt_x br); F32.of_int (pt_y br);
    F32.of_int (pt_x bl); F32.of_int (pt_y bl) ].

(** Lines 47 to 69.  The result is [None] for the [nullptr] the function
    returns when the image cannot be read or no quadrilateral is found, and
    [Some] for the [jfloatArray]. *)
Definition quad_of_best (best : vector Point) : io (option (vector jfloat)) :=
  if negb (length best =? 4)%nat then ret None
  else
    q <- order_corners best ;;
    ret (Some (coords_of q)).

(** Lines 33 to 69: from the contours to the result. *)
Definition quad_of_contours (contours : vector (vector Point))
  : io (option (vector jfloat)) :=
  quad_of_best (snd (scan_contours contours)).

(** [Java_com_pdfsmarttools_scan_EdgeProcessor_detectDocumentContour], the
    native side of [EdgeProcessor.detectDocumentContour]. *)
Definition detectDocumentContour (imagePath : string) : io (option (vector jfloat)) :=
  let img := imread imagePath in
  if Mat_empty img then
    path <- read_released imagePath ;;
    emit (ALOGE "Failed to load image for contour detection: %s" (arg_str path)) ;;;
    ret None
  else
    quad_of_contours (edge_contours img).

(** *** enhanceAndWarp *)

Definition jfloat_zero : jfloat := S754_zero false.

(** Line 97: [src[i] = Point2f(pts[i*2], pts[i*2+1])]. *)
Definition src_point (pts : vector jfloat) (i : nat) : Point2f :=
  mk_Point2f (nth (i * 2) pts jfloat_zero) (nth (i * 2 + 1) pts jfloat_zero).

(** [hypot(a.x - b.x, a.y - b.y)]: the differences are [float]
    subtractions, the result is a [double]. *)
Definition side (a b : Point2f) : double :=
  hypot (F32.sub (ptf_x a) (ptf_x b)) (F32.sub (ptf_y a) (ptf_y b)).

(** Lines 100 to 106, on [src[0..3]] = TL, TR, BR, BL. *)
Definition maxWidth (src : nat -> Point2f) : double :=
  let widthA := side (src 2%nat) (src 3%nat) in
  let widthB := side (src 1%nat) (src 0%nat) in
  F64.max widthA widthB.

Definition maxHeight (src : nat -> Point2f) : double :=
  let heightA := side (src 1%nat) (src 2%nat) in
  let heightB := side (src 0%nat) (src 3%nat) in
  F64.max heightA heightB.

(** [(float)d - 1]. *)
Definition minus_one (d : double) : jfloat := F32.sub (F32.of_double d) (F32.of_Z 1).

(** Lines 108 to 112. *)
Definition dst_points (w h : double) : vector Point2f :=
  [ mk_Point2f (F32.of_Z 0) (F32.of_Z 0);
    mk_Point2f (minus_one w) (F32.of_Z 0);
    mk_Point2f (minus_one w) (minus_one h);
    mk_Point2f (F32.of_Z 0) (minus_one h) ].

(** Lines 119 to 121. *)
Definition enhance (warped : Mat) : Mat :=
  let enhanced := cvtColor warped COLOR_BGR2GRAY in
  adaptiveThreshold enhanced (F64.of_Z 255) ADAPTIVE_THRESH_GAUSSIAN_C THRESH_BINARY
                    15 (F64.of_Z 10).

(** [Java_com_pdfsmarttools_scan_EdgeProcessor_enhanceAndWarp], the native
    side of [EdgeProcessor.enhanceAndWarp]. *)
Definition enhanceAndWarp (inputPath outputPath : string) (polygon : vector jfloat)
  : io jboolean :=
  let img := imread inputPath in
  if Mat_empty img then
    emit (ALOGE "Failed to load image for warp: %s" (arg_str inputPath)) ;;;
    ret JNI_FALSE
  else
    let len := Z.of_nat (length polygon) in
    if len <? 8 then
      emit (ALOGE "Polygon length invalid: %d" (arg_int len)) ;;;
      ret JNI_FALSE
    else
      let pts := firstn 8 polygon in
      let src := src_point pts in
      let w := maxWidth src in
      let h := maxHeight src in
      let M := getPerspectiveTransform (map src [0; 1; 2; 3]%nat) (dst_points w h) in
      cols <- cast_int w ;;
      rows <- cast_int h ;;
      let warped := warpPerspective img M (mk_Size cols rows) in
      let enhanced := enhance warped in
      let params := [IMWRITE_JPEG_QUALITY; 95] in
      let ok := imwrite outputPath enhanced params in
      emit (IMWRITE outputPath enhanced params ok) ;;;
      ret (if ok then JNI_TRUE else JNI_FALSE).

(** The transform of line 114 and the image of line 121, as functions of the
    first eight values of the polygon and of the size passed on line 116. *)
Definition transform (pts : vector jfloat) : Mat :=
  getPerspectiveTransform (map (src_point pts) [0; 1; 2; 3]%nat)
    (dst_points (maxWidth (src_point pts)) (maxHeight (src_point pts))).

Definition rectified (img : Mat) (pts : vector jfloat) (cols rows : Z) : Mat :=
  enhance (warpPerspective img (transform pts) (mk_Size cols rows)).

End EdgeProcessor.

Arguments event {cv}.
Arguments io {cv} A.

(** ** A reference platform and a miniature OpenCV

    The theorems below hold for every [Platform] and every [OpenCV].  To run
    the two functions on concrete inputs, this module supplies one of each:
    [hypot] and [std::sort] computed for real, and an OpenCV in miniature
    whose images are a size, a sample function and the outlines drawn on
    them. *)
Module Ref.

(** [std::hypot(float, float)]: the square root of the sum of the squares,
    evaluated in binary64, rounded once to binary32 and widened again. *)
Definition hypot_of_floats (a b : jfloat) : double :=
  let a' := F64.of_float a in
  let b' := F64.of_float b in
  F64.of_float
    (F32.of_double
       (SFsqrt F64.prec F64.emax
          (SFadd F64.prec F64.emax (F64.mul a' a') (F64.mul b' b')))).

(** [std::sort] as an insertion sort. *)
Fixpoint insert (lt : Point -> Point -> bool) (p : Point) (l : vector Point)
  : vector Point :=
  match l with
  | [] => [p]
  | q :: l' => if lt p q then p :: l else q :: insert lt p l'
  end.

Definition insertion_sort (lt : Point -> Point -> bool) (l : vector Point)
  : vector Point :=
  fold_right (insert lt) [] l.

#[export] Instance platform : Platform :=
  {| hypot := hypot_of_floats; std_sort := insertion_sort |}.

(** An [int] literal; a literal outside the range of [int] reads as 0. *)
Definition i32 (z : Z) : int :=
  (if in_int z as b return (in_int z = b -> int)
   then fun H => mk_int z H
   else fun _ => mk_int 0 eq_refl) eq_refl.

Definition pt (x y : Z) : Point := mk_Point (i32 x) (i32 y).

(** An image of the miniature: its size, its samples (row, column) and the
    closed outlines of the shapes drawn on it. *)
Record image : Type := mk_image {
  im_size : Size;
  im_at : Z -> Z -> Z;
  im_outlines : vector (vector Point)
}.

Definition size_empty (s : Size) : bool := (width s <=? 0) || (height s <=? 0).

Definition no_image : image := mk_image (mk_Size 0 0) (fun _ _ => 0) [].

(** Twice the signed area of a closed outline (the shoelace sum). *)
Fixpoint shoelace (first prev : Point) (l : vector Point) : Z :=
  let cross (a b : Point) :=
    int_val (pt_x a) * int_val (pt_y b) - int_val (pt_x b) * int_val (pt_y a) in
  match l with
  | [] => cross prev first
  | p :: l' => cross prev p + shoelace first p l'
  end.

Definition contour_area (c : vector Point) : double :=
  match c with
  | [] => F64.of_Z 0
  | p :: l => binary_normalize F64.prec F64.emax (Z.abs (shoelace p p l)) (-1) false
  end.

Definition distance (a b : Point) : double :=
  let dx := int_val (pt_x a) - int_val (pt_x b) in
  let dy := int_val (pt_y a) - int_val (pt_y b) in
  SFsqrt F64.prec F64.emax (F64.of_Z (dx * dx + dy * dy)).

Fixpoint path_length (first prev : Point) (closed : bool) (l : vector Point) : double :=
  match l with
  | [] => if closed then distance prev first else F64.of_Z 0
  | p :: l' => SFadd F64.prec F64.emax (distance prev p) (path_length first p closed l')
  end.

Definition arc_length (c : vector Point) (closed : bool) : double :=
  match c with
  | [] => F64.of_Z 0
  | p :: l => path_length p p closed l
  end.

(** Polygon approximation in miniature: a vertex equal to its predecessor is
    dropped, whatever the tolerance. *)
Fixpoint drop_repeats (prev : Point) (l : vector Point) : vector Point :=
  match l with
  | [] => []
  | p :: l' =>
      if (int_val (pt_x p) =? int_val (pt_x prev)) && (int_val (pt_y p) =? int_val (pt_y prev))
      then drop_repeats prev l'
      else p :: drop_repeats p l'
  end.

Definition approx_poly (c : vector Point) (epsilon : double) (closed : bool)
  : vector Point :=
  match c with
  | [] => []
  | p :: l => p :: drop_repeats p l
  end.

(** The mean of the [blockSize] x [blockSize] window around a sample, with
    uniform weights. *)
Definition window (blockSize : Z) : list Z :=
  map (fun i => Z.of_nat i - blockSize / 2) (seq 0 (Z.to_nat blockSize)).

Definition window_mean (method : AdaptiveThresholdTypes) (m : image)
  (blockSize row col : Z) : Z :=
  let offsets := window blockSize in
  fold_right Z.add 0
    (map (fun dr => fold_right Z.add 0 (map (fun dc => im_at m (row + dr) (col + dc)) offsets))
       offsets)
  / (blockSize * blockSize).

Definition as_int (d : double) : Z :=
  match F64.to_int d with Some z => z | None => 0 end.

Definition adaptive_threshold (src : image) (maxValue : double)
  (method : AdaptiveThresholdTypes) (type : ThresholdTypes) (blockSize : Z) (C : double)
  : image :=
  let above r c := window_mean method src blockSize r c - as_int C <? im_at src r c in
  mk_image (im_size src)
    (fun r c =>
       match type with
       | THRESH_BINARY => if above r c then as_int maxValue else 0
       | THRESH_BINARY_INV => if above r c then 0 else as_int maxValue
       end)
    (im_outlines src).

(** The warp in miniature keeps the samples where they are and only sets the
    size; like OpenCV it falls back on the size of the source when the size
    asked for is empty. *)
Definition warp (src M : image) (dsize : Size) : image :=
  mk_image (if size_empty dsize then im_size src else dsize) (im_at src) [].

(** The document of the specification's scenario on an 800 x 600 page, next
    to a small square and a triangle. *)
Definition document : vector Point := [pt 650 90; pt 680 540; pt 80 560; pt 100 120].
Definition speck : vector Point := [pt 10 10; pt 30 10; pt 30 30; pt 10 30].
Definition triangle : vector Point := [pt 200 200; pt 400 200; pt 300 400].
Definition label : vector Point := [pt 300 300; pt 400 300; pt 400 350; pt 300 350].

Definition page : image :=
  mk_image (mk_Size 800 600) (fun r c => (r * 7 + c * 13) mod 256)
    [speck; label; triangle; document].

Definition blank : image := mk_image (mk_Size 640 480) (fun _ _ => 255) [].

Definition specks : image :=
  mk_image (mk_Size 640 480) (fun r c => (r + c) mod 256) [speck; triangle].

Definition files (path : string) : image :=
  if (path =? "page.jpg")%string then page
  else if (path =? "blank.jpg")%string then blank
  else if (path =? "specks.jpg")%string then specks
  else no_image.

#[export] Instance opencv : OpenCV :=
  {| Mat := image;
     Mat_empty := fun m => size_empty (im_size m);
     Mat_size := im_size;
     imread := files;
     imwrite := fun path m _ => negb (path =? "")%string && negb (size_empty (im_size m));
     cvtColor := fun m _ => m;
     GaussianBlur := fun m _ _ => m;
     Canny := fun m _ _ => m;
     findContours := fun m _ _ => im_outlines m;
     contourArea := contour_area;
     arcLength := arc_length;
     approxPolyDP := approx_poly;
     getPerspectiveTransform := fun _ _ => no_image;
     warpPerspective := warp;
     adaptiveThreshold := adaptive_threshold |}.

(** Polygons handed to [enhanceAndWarp]. *)
Definition f32 (z : Z) : jfloat := F32.of_Z z.
Definition one_and_a_half : jfloat := S754_finite false 12582912 (-23).

Definition scenario_polygon : vector jfloat :=
  [f32 100; f32 120; f32 650; f32 90; f32 680; f32 540; f32 80; f32 560].
Definition small_square : vector jfloat :=
  [f32 0; f32 0; one_and_a_half; f32 0; one_and_a_half; one_and_a_half; f32 0; one_and_a_half].
Definition coincident : vector jfloat :=
  [f32 5; f32 5; f32 5; f32 5; f32 5; f32 5; f32 5; f32 5].
Definition six_values : vector jfloat := [f32 0; f32 0; f32 10; f32 0; f32 10; f32 10].
Definition ten_values : vector jfloat := scenario_polygon ++ [f32 7; f32 7].
End Ref.


(** ** What the libraries promise

    The documented behaviour of the library calls, as far as the theorems
    need it.  Each is a hypothesis of the theorems that use it, and each holds
    of the reference platform and of the miniature OpenCV. *)

(** The requirement [std::sort] puts on its comparison. *)
Definition strict_weak_order (lt : Point -> Point -> bool) : Prop :=
  (forall a, lt a a = false) /\
  (forall a b c, lt a b = true -> lt b c = true -> lt a c = true) /\
  (forall a b c, lt a b = false -> lt b c = false -> lt a c = false).

(** [std::sort] rearranges the range so that no element is less than one
    before it. *)
Definition std_sort_contract (os : Platform) : Prop :=
  forall lt l, strict_weak_order lt ->
    Permutation l (std_sort lt l) /\
    StronglySorted (fun a b => lt b a = false) (std_sort lt l).

(** [warpPerspective] returns an image of the size asked for when that size
    is not empty; [cvtColor] and [adaptiveThreshold] return an image of the
    size of their source. *)
Definition size_contract (cv : OpenCV) : Prop :=
  (forall src M dsize, 0 < width dsize -> 0 < height dsize ->
     Mat_size (warpPerspective src M dsize) = dsize) /\
  (forall src code, Mat_size (cvtColor src code) = Mat_size src) /\
  (forall src maxValue method type blockSize C,
     Mat_size (adaptiveThreshold src maxValue method type blockSize C) = Mat_size src).

(** A contour survives line 38 when its area is not below 1000. *)
Definition survives {cv : OpenCV} (c : vector Point) : bool :=
  negb (F64.ltb (contourArea c) (F64.of_Z 1000)).

(** The polygons the scan considers: the four-vertex approximations of the
    surviving contours. *)
Definition candidate {cv : OpenCV} (contours : vector (vector Point)) (p : vector Point)
  : Prop :=
  exists c, In c contours /\ survives c = true /\ p = approx_of c /\ length p = 4%nat.

(** The invariant of the loop of lines 36 to 45 once the contours [seen] have
    been visited: no candidate among them has an area above [maxArea], and
    [best] is either still empty, with [maxArea] at its initial 0, or a
    candidate whose area is [maxArea]. *)
Definition scan_inv {cv : OpenCV} (seen : vector (vector Point))
  (st : double * vector Point) : Prop :=
  (forall p, candidate seen p -> F64.ltb (fst st) (F64.fabs (contourArea p)) = false) /\
  (snd st = [] /\ fst st = F64.of_Z 0 \/
   candidate seen (snd st) /\ fst st = F64.fabs (contourArea (snd st))).

(** libm: [hypot] is never below zero (it is a NaN when it has no value). *)
Definition hypot_contract (os : Platform) : Prop :=
  forall a b, F64.ltb (hypot a b) (F64.of_Z 0) = false.

(** The test of lines 38 and 41 that does not look at [maxArea]: the contour
    survives and its approximation has four vertices. *)
Definition is_candidate {cv : OpenCV} (c : vector Point) : bool :=
  survives c && (length (approx_of c) =? 4)%nat.

(** No two different points of the list share their [y]. *)
Definition distinct_y (l : vector Point) : Prop :=
  forall a b, In a l -> In b l -> int_val (pt_y a) = int_val (pt_y b) -> a = b.

(** More inputs for the reference platform: a sliver half a pixel wide and
    three pixels high, the document with two of its vertices exchanged, and
    two labels of the same area; and a second platform. *)
Module RefMore.
Definition half : jfloat := S754_finite false 8388608 (-24).

Definition sliver : vector jfloat :=
  [Ref.f32 0; Ref.f32 0; half; Ref.f32 0; half; Ref.f32 3; Ref.f32 0; Ref.f32 3].

Definition document_reversed : vector Point :=
  [Ref.pt 80 560; Ref.pt 680 540; Ref.pt 650 90; Ref.pt 100 120].

Definition twins : vector (vector Point) :=
  [Ref.label; [Ref.pt 500 300; Ref.pt 600 300; Ref.pt 600 350; Ref.pt 500 350]].

(** Another [std::sort]: an insertion sort that takes the elements from the
    left, so that it leaves equal elements in another order than
    [Ref.insertion_sort]. *)
Definition sort_from_left (lt : Point -> Point -> bool) (l : vector Point)
  : vector Point :=
  fold_left (fun sorted p => Ref.insert lt p sorted) l [].

#[export] Instance platform_left : Platform :=
  {| hypot := Ref.hypot_of_floats; std_sort := sort_from_left |}.
End RefMore.

(** A second miniature, whose polygon approximation uses its tolerance: going
    round the outline, it drops a vertex that lies within [epsilon] of the
    line through the last vertex kept and the next vertex.  Its files hold
    one more image: two triangles that meet in a point, one of them with a
    bump of ten pixels on its outer side. *)
Module RefDP.
Definition within (epsilon : double) (a p b : Point) : bool :=
  let ux := int_val (pt_x b) - int_val (pt_x a) in
  let uy := int_val (pt_y b) - int_val (pt_y a) in
  let cross := ux * (int_val (pt_y p) - int_val (pt_y a))
               - uy * (int_val (pt_x p) - int_val (pt_x a)) in
  F64.leb (F64.of_Z (cross * cross))
          (F64.mul (F64.mul epsilon epsilon) (F64.of_Z (ux * ux + uy * uy))).

Fixpoint simplify (epsilon : double) (first prev : Point) (l : vector Point)
  : vector Point :=
  match l with
  | [] => []
  | p :: l' =>
      let next := match l' with [] => first | q :: _ => q end in
      if within epsilon prev p next then simplify epsilon first prev l'
      else p :: simplify epsilon first p l'
  end.

Definition approx_by_tolerance (c : vector Point) (epsilon : double) (closed : bool)
  : vector Point :=
  match c with
  | [] => []
  | p :: l => p :: simplify epsilon p p l
  end.

Definition bumped : vector Point :=
  [Ref.pt 0 0; Ref.pt 1000 1000; Ref.pt 1010 500; Ref.pt 1000 0; Ref.pt 0 1000].

Definition bowtie : vector Point :=
  [Ref.pt 0 0; Ref.pt 1000 1000; Ref.pt 1000 0; Ref.pt 0 1000].

Definition pinched : Ref.image :=
  Ref.mk_image (mk_Size 1100 1100) (fun r c => (r + c) mod 256) [bumped].

Definition files (path : string) : Ref.image :=
  if (path =? "pinched.jpg")%string then pinched else Ref.files path.

#[export] Instance opencv : OpenCV :=
  {| Mat := Ref.image;
     Mat_empty := fun m => Ref.size_empty (Ref.im_size m);
     Mat_size := Ref.im_size;
     imread := files;
     imwrite := fun path m _ =>
                  negb (path =? "")%string && negb (Ref.size_empty (Ref.im_size m));
     cvtColor := fun m _ => m;
     GaussianBlur := fun m _ _ => m;
     Canny := fun m _ _ => m;
     findContours := fun m _ _ => Ref.im_outlines m;
     contourArea := Ref.contour_area;
     arcLength := Ref.arc_length;
     approxPolyDP := approx_by_tolerance;
     getPerspectiveTransform := fun _ _ => Ref.no_image;
     warpPerspective := Ref.warp;
     adaptiveThreshold := Ref.adaptive_threshold |}.
End RefDP.

(** * Proofs *)

(** ** Rounding in [SpecFloat] *)

Section Rounding.

(** [iter_pos] is iteration. *)
Lemma iter_pos_nat {A} (f : A -> A) p x : iter_pos f p x = Nat.iter (Pos.to_nat p) f x.
Proof.
  revert x; induction p as [p IHp|p IHp|]; intros x; cbn [iter_pos].
  - rewrite !IHp, Pos2Nat.inj_xI, <- Nat.iter_succ_r.
    replace (S (2 * Pos.to_nat p))%nat with (Pos.to_nat p + S (Pos.to_nat p))%nat by lia.
    now rewrite Nat.iter_add.
  - rewrite !IHp, Pos2Nat.inj_xO.
    replace (2 * Pos.to_nat p)%nat with (Pos.to_nat p + Pos.to_nat p)%nat by lia.
    now rewrite Nat.iter_add.
  - reflexivity.
Qed.

Lemma shr_1_nonneg m r s : 0 <= m ->
  shr_1 (Build_shr_record m r s) = Build_shr_record (m / 2) (Z.odd m) (r || s).
Proof.
  intros Hm. rewrite <- Z.div2_div.
  destruct m as [|[p|p|]|p]; try lia; reflexivity.
Qed.

Lemma iter_shr_1 n m : 0 <= m ->
  Nat.iter (S n) shr_1 (Build_shr_record m false false) =
  Build_shr_record (m / 2 ^ Z.of_nat (S n)) (Z.testbit m (Z.of_nat n))
                   (negb (m mod 2 ^ Z.of_nat n =? 0)).
Proof.
  intros Hm. induction n as [|n IH].
  - cbn [Nat.iter]. rewrite shr_1_nonneg by assumption.
    change (Z.of_nat 1) with 1. change (Z.of_nat 0) with 0.
    rewrite Z.pow_1_r, Z.pow_0_r, Z.mod_1_r, Z.bit0_odd. reflexivity.
  - change (Nat.iter (S (S n)) shr_1 ?x) with (shr_1 (Nat.iter (S n) shr_1 x)).
    rewrite IH. rewrite shr_1_nonneg by (apply Z.div_pos; lia).
    f_equal.
    + rewrite Z.div_div by lia. f_equal.
      rewrite (Nat2Z.inj_succ (S n)), Z.pow_succ_r by lia. lia.
    + rewrite (Nat2Z.inj_succ n), Z.testbit_odd, Z.shiftr_div_pow2 by lia.
      rewrite <- Nat2Z.inj_succ. reflexivity.
    + rewrite (Nat2Z.inj_succ n), Z.pow_succ_r by lia.
      pose proof (Z.testbit_spec' m (Z.of_nat n) (Nat2Z.is_nonneg n)) as Hb.
      set (k := 2 ^ Z.of_nat n) in *. assert (0 < k) by (apply Z.pow_pos_nonneg; lia).
      rewrite (Z.mul_comm 2 k), Z.rem_mul_r by lia.
      assert (0 <= m mod k < k) by (apply Z.mod_pos_bound; lia).
      destruct (Z.testbit m (Z.of_nat n)); cbn [Z.b2z] in Hb; rewrite <- Hb;
        destruct (Z.eqb_spec (m mod k) 0);
        match goal with |- context [?a =? 0] => destruct (Z.eqb_spec a 0) end;
        simpl; try reflexivity; nia.
Qed.

Lemma Zdigits_log2 p : Zpos (digits2_pos p) = digits (Zpos p).
Proof.
  unfold digits.
  assert (E : forall q, digits2_pos q = Pos.size q) by (induction q; simpl; congruence).
  rewrite E. destruct p; simpl; lia.
Qed.

Lemma digits_bounds z : 0 < z -> 2 ^ (digits z - 1) <= z < 2 ^ digits z.
Proof.
  intros Hz. unfold digits. replace (Z.log2 z + 1 - 1) with (Z.log2 z) by lia.
  replace (Z.log2 z + 1) with (Z.succ (Z.log2 z)) by lia. now apply Z.log2_spec.
Qed.

Lemma digits_unique z d : 2 ^ (d - 1) <= z < 2 ^ d -> 0 < d -> digits z = d.
Proof.
  intros H Hd. unfold digits. rewrite (Z.log2_unique z (d - 1)); try lia.
  replace (Z.succ (d - 1)) with d by lia. exact H.
Qed.

Lemma digits_pos z : 0 < z -> 0 < digits z.
Proof. intros Hz. unfold digits. pose proof (Z.log2_nonneg z). lia. Qed.

Lemma Pos_iter_xO p k : Zpos (Pos.iter xO p k) = Zpos p * 2 ^ Zpos k.
Proof.
  induction k as [|k IH] using Pos.peano_ind.
  - simpl. lia.
  - rewrite Pos.iter_succ, Pos2Z.inj_xO, IH, Pos2Z.inj_succ, Z.pow_succ_r by lia. lia.
Qed.

Lemma fexp32 e : -125 <= e -> fexp F32.prec F32.emax e = e - 24.
Proof. intros. unfold fexp, emin, F32.prec, F32.emax. lia. Qed.

(** A 24-bit mantissa is already in its place: rounding leaves it alone. *)
Lemma binary_round_aux_fits s m e :
  digits (Zpos m) = 24 -> -149 <= e <= 104 ->
  binary_round_aux F32.prec F32.emax s (Zpos m) e loc_Exact = S754_finite s m e.
Proof.
  intros Hd He. unfold binary_round_aux, shr_fexp.
  cbn [Zdigits2 shr_record_of_loc]. rewrite Zdigits_log2, Hd, fexp32 by lia.
  replace (24 + e - 24 - e) with 0 by lia. cbn [shr shr_m loc_of_shr_record round_nearest_even].
  cbn [Zdigits2 shr_record_of_loc]. rewrite Zdigits_log2, Hd, fexp32 by lia.
  replace (24 + e - 24 - e) with 0 by lia. cbn [shr shr_m].
  unfold F32.prec, F32.emax. destruct (Z.leb_spec e (128 - 24)); [reflexivity | lia].
Qed.

Lemma binary_round_small s p : digits (Zpos p) <= 24 ->
  binary_round F32.prec F32.emax s p 0 = F32_of_nearest s (Zpos p).
Proof.
  intros Hd. pose proof (digits_pos (Zpos p) eq_refl) as Hd0.
  pose proof (digits_bounds (Zpos p) eq_refl) as Hb.
  unfold F32_of_nearest, nearest24. destruct (Z.leb_spec (digits (Zpos p)) 24); [|lia].
  cbn [fst snd]. unfold binary_round.
  rewrite Zdigits_log2, Z.add_0_r, fexp32 by lia.
  unfold shl_align. rewrite Z.sub_0_r.
  destruct (digits (Zpos p) - 24) as [|k|k] eqn:Ek; try lia.
  - replace (24 - digits (Zpos p)) with 0 by lia. rewrite Z.pow_0_r, Z.mul_1_r.
    cbn [Z.to_pos]. apply binary_round_aux_fits; lia.
  - replace (24 - digits (Zpos p)) with (Zpos k) by lia.
    assert (Hm : Zpos (Pos.iter xO p k) = Zpos p * 2 ^ Zpos k) by apply Pos_iter_xO.
    rewrite <- Hm. cbn [Z.to_pos].
    apply binary_round_aux_fits; [|lia].
    rewrite Hm. apply digits_unique; [|lia].
    assert (E1 : 2 ^ (24 - 1) = 2 ^ (digits (Zpos p) - 1) * 2 ^ Zpos k)
      by (rewrite <- Z.pow_add_r by lia; f_equal; lia).
    assert (E2 : 2 ^ 24 = 2 ^ digits (Zpos p) * 2 ^ Zpos k)
      by (rewrite <- Z.pow_add_r by lia; f_equal; lia).
    rewrite E1, E2.
    assert (0 < 2 ^ Zpos k) by (apply Z.pow_pos_nonneg; lia). nia.
Qed.

Lemma round_decision z k q : 0 <= z -> 0 < k ->
  round_nearest_even q
    (loc_of_shr_record
       (Build_shr_record q (Z.testbit z (k - 1)) (negb (z mod 2 ^ (k - 1) =? 0)))) =
  if round_up q (z mod 2 ^ k) (2 ^ (k - 1)) then q + 1 else q.
Proof.
  intros Hz Hk. unfold round_up.
  pose proof (Z.testbit_spec' z (k - 1) ltac:(lia)) as Hb.
  set (h := 2 ^ (k - 1)) in *. assert (0 < h) by (apply Z.pow_pos_nonneg; lia).
  replace (2 ^ k) with (h * 2).
  2:{ unfold h. rewrite Z.mul_comm, <- Z.pow_succ_r by lia. f_equal. lia. }
  rewrite Z.rem_mul_r by lia.
  assert (0 <= z mod h < h) by (apply Z.mod_pos_bound; lia).
  rewrite <- Z.negb_even.
  destruct (Z.testbit z (k - 1)); cbn [Z.b2z] in Hb; rewrite <- Hb;
    destruct (Z.eqb_spec (z mod h) 0) as [E|E];
    cbn [negb loc_of_shr_record round_nearest_even];
    destruct (Z.ltb_spec h (z mod h + h * (Z.b2z true))) as [L|L];
    cbn [Z.b2z] in *;
    repeat match goal with
           | |- context [?a <? ?b] => destruct (Z.ltb_spec a b)
           | |- context [?a =? ?b] => destruct (Z.eqb_spec a b)
           end;
    cbn [orb andb negb]; try destruct (Z.even q); cbn [orb andb negb];
    try reflexivity; lia.
Qed.

Lemma shr_fexp_large z k :
  0 < z -> 0 < k -> digits z = 24 + k ->
  shr_fexp F32.prec F32.emax z 0 loc_Exact =
  (Build_shr_record (z / 2 ^ k) (Z.testbit z (k - 1)) (negb (z mod 2 ^ (k - 1) =? 0)), k).
Proof.
  intros Hz Hk Hd. unfold shr_fexp.
  destruct z as [|p|p]; try lia. cbn [Zdigits2 shr_record_of_loc].
  rewrite Zdigits_log2, Hd, fexp32 by lia.
  replace (24 + k + 0 - 24 - 0) with k by lia.
  destruct k as [|kp|kp]; try lia. cbn [shr]. f_equal.
  rewrite iter_pos_nat.
  destruct (Pos.to_nat kp) as [|n] eqn:En; [lia|].
  rewrite iter_shr_1 by lia.
  replace (Z.of_nat (S n)) with (Zpos kp) by lia.
  replace (Z.of_nat n) with (Zpos kp - 1) by lia. reflexivity.
Qed.


Lemma renormalise s m k :
  2 ^ 23 <= m <= 2 ^ 24 -> 0 < k <= 103 ->
  (let '(mrs, e) := shr_fexp F32.prec F32.emax m k loc_Exact in
   match shr_m mrs with
   | Z0 => S754_zero s
   | Zpos m' => if e <=? F32.emax - F32.prec then S754_finite s m' e else S754_infinity s
   | Zneg _ => S754_nan
   end) =
  S754_finite s (Z.to_pos (fst (renormalised m k))) (snd (renormalised m k)).
Proof.
  intros Hm Hk. unfold renormalised, shr_fexp.
  destruct m as [|mp|mp]; try lia. cbn [Zdigits2 shr_record_of_loc].
  rewrite Zdigits_log2.
  destruct (Z.eqb_spec (Zpos mp) (2 ^ 24)) as [E|E].
  - rewrite (digits_unique (Zpos mp) 25), fexp32 by lia.
    replace (25 + k - 24 - k) with 1 by lia.
    injection E as ->. cbn [shr iter_pos shr_1 shr_m fst snd].
    unfold F32.prec, F32.emax. destruct (Z.leb_spec (k + 1) (128 - 24)); [reflexivity | lia].
  - rewrite (digits_unique (Zpos mp) 24), fexp32 by lia.
    replace (24 + k - 24 - k) with 0 by lia. cbn [shr shr_m Z.to_pos fst snd].
    unfold F32.prec, F32.emax. destruct (Z.leb_spec k (128 - 24)); [reflexivity | lia].
Qed.

Lemma binary_round_large s p : 24 < digits (Zpos p) <= 127 ->
  binary_round F32.prec F32.emax s p 0 = F32_of_nearest s (Zpos p).
Proof.
  intros Hd. assert (Hz : 0 < Zpos p) by reflexivity. remember (Zpos p) as z eqn:Ez.
  pose proof (digits_bounds z Hz) as Hb. unfold F32_of_nearest.
  set (k := digits z - 24). assert (Hk : 0 < k) by lia.
  assert (Ed : digits z = 24 + k) by lia.
  assert (Hq : 2 ^ 23 <= z / 2 ^ k < 2 ^ 24).
  { assert (0 < 2 ^ k) by (apply Z.pow_pos_nonneg; lia).
    assert (E1 : 2 ^ (digits z - 1) = 2 ^ 23 * 2 ^ k)
      by (rewrite <- Z.pow_add_r by lia; f_equal; lia).
    assert (E2 : 2 ^ digits z = 2 ^ 24 * 2 ^ k)
      by (rewrite <- Z.pow_add_r by lia; f_equal; lia).
    split.
    - apply Z.div_le_lower_bound; lia.
    - apply Z.div_lt_upper_bound; lia. }
  unfold nearest24. fold k.
  destruct (Z.leb_spec (digits z) 24); [lia|]. cbn zeta.
  fold (renormalised (if round_up (z / 2 ^ k) (z mod 2 ^ k) (2 ^ (k - 1))
                      then z / 2 ^ k + 1 else z / 2 ^ k) k).
  clearbody k.
  unfold binary_round. rewrite Zdigits_log2, <- Ez, Z.add_0_r, fexp32 by lia.
  unfold shl_align. rewrite Z.sub_0_r.
  destruct (digits z - 24) as [|k'|k'] eqn:Ek; try lia.
  unfold binary_round_aux. rewrite <- Ez.
  rewrite (shr_fexp_large z k) by lia.
  cbn [shr_m]. rewrite round_decision by lia.
  apply renormalise; [|lia].
  destruct (round_up _ _ _); lia.
Qed.

Lemma binary_round_nearest s p : digits (Zpos p) <= 127 ->
  binary_round F32.prec F32.emax s p 0 = F32_of_nearest s (Zpos p).
Proof.
  intros Hd. destruct (Z.le_gt_cases (digits (Zpos p)) 24).
  - now apply binary_round_small.
  - apply binary_round_large; lia.
Qed.

Lemma quotient_24_bits z : 0 < z -> 24 < digits z ->
  2 ^ 23 <= z / 2 ^ (digits z - 24) < 2 ^ 24.
Proof.
  intros Hz Hd. pose proof (digits_bounds z Hz) as Hb.
  set (k := digits z - 24) in *.
  assert (0 < 2 ^ k) by (apply Z.pow_pos_nonneg; lia).
  assert (E1 : 2 ^ (digits z - 1) = 2 ^ 23 * 2 ^ k)
    by (rewrite <- Z.pow_add_r by lia; f_equal; lia).
  assert (E2 : 2 ^ digits z = 2 ^ 24 * 2 ^ k)
    by (rewrite <- Z.pow_add_r by lia; f_equal; lia).
  split.
  - apply Z.div_le_lower_bound; lia.
  - apply Z.div_lt_upper_bound; lia.
Qed.

Lemma nearest24_shape z : 0 < z ->
  2 ^ 23 <= fst (nearest24 z) < 2 ^ 24 /\
  (snd (nearest24 z) = digits z - 24 \/
   snd (nearest24 z) = digits z - 23 /\ fst (nearest24 z) = 2 ^ 23 /\ 24 < digits z).
Proof.
  intros Hz. pose proof (digits_bounds z Hz) as Hb. pose proof (digits_pos z Hz) as Hd.
  unfold nearest24. destruct (Z.leb_spec (digits z) 24) as [Hs|Hl]; cbn [fst snd].
  - split; [|now left].
    assert (E1 : 2 ^ 23 = 2 ^ (digits z - 1) * 2 ^ (24 - digits z))
      by (rewrite <- Z.pow_add_r by lia; f_equal; lia).
    assert (E2 : 2 ^ 24 = 2 ^ digits z * 2 ^ (24 - digits z))
      by (rewrite <- Z.pow_add_r by lia; f_equal; lia).
    assert (0 < 2 ^ (24 - digits z)) by (apply Z.pow_pos_nonneg; lia).
    rewrite E1, E2. nia.
  - cbn zeta. pose proof (quotient_24_bits z Hz Hl) as Hq.
    unfold renormalised.
    destruct (round_up _ _ _);
      match goal with |- context [?m =? 2 ^ 24] => destruct (Z.eqb_spec m (2 ^ 24)) end;
      cbn [fst snd]; lia.
Qed.

Lemma round_up_mono q r r' h : r <= r' -> round_up q r h = true -> round_up q r' h = true.
Proof.
  unfold round_up. intros Hr.
  destruct (Z.ltb_spec h r), (Z.ltb_spec h r'), (Z.eqb_spec r h), (Z.eqb_spec r' h);
    cbn [orb andb]; intros U; try reflexivity; try lia; try discriminate; exact U.
Qed.

Lemma nearest24_mono x y : 0 < x -> x <= y -> lex_le (nearest24 x) (nearest24 y).
Proof.
  intros Hx Hxy. assert (Hy : 0 < y) by lia.
  destruct (nearest24_shape x Hx) as [Mx Ex], (nearest24_shape y Hy) as [My Ey].
  assert (Hd : digits x <= digits y) by (unfold digits; pose proof (Z.log2_le_mono x y Hxy); lia).
  unfold lex_le.
  destruct (Z.eq_dec (digits x) (digits y)) as [Ed|Nd]; [|lia].
  clear Mx Ex My Ey. unfold nearest24. rewrite <- Ed.
  destruct (Z.leb_spec (digits x) 24) as [Hs|Hl]; cbn [fst snd].
  - right. split; [reflexivity|].
    apply Z.mul_le_mono_nonneg_r; [apply Z.pow_nonneg|]; lia.
  - cbn zeta. set (k := digits x - 24).
    assert (Hk : 0 < 2 ^ k) by (apply Z.pow_pos_nonneg; lia).
    pose proof (quotient_24_bits x Hx Hl) as Qx.
    assert (Hl' : 24 < digits y) by lia.
    pose proof (quotient_24_bits y Hy Hl') as Qy. rewrite <- Ed in Qy. fold k in Qx, Qy.
    assert (Hq : x / 2 ^ k <= y / 2 ^ k) by (apply Z.div_le_mono; lia).
    set (mx := if round_up (x / 2 ^ k) (x mod 2 ^ k) (2 ^ (k - 1))
               then x / 2 ^ k + 1 else x / 2 ^ k).
    set (my := if round_up (y / 2 ^ k) (y mod 2 ^ k) (2 ^ (k - 1))
               then y / 2 ^ k + 1 else y / 2 ^ k).
    assert (Hm : mx <= my).
    { unfold mx, my. destruct (Z.eq_dec (x / 2 ^ k) (y / 2 ^ k)) as [Eq|Nq].
      - rewrite <- Eq.
        assert (Hr : x mod 2 ^ k <= y mod 2 ^ k).
        { pose proof (Z.div_mod x (2 ^ k) ltac:(lia)) as Dx.
          pose proof (Z.div_mod y (2 ^ k) ltac:(lia)) as Dy.
          rewrite Eq in Dx. revert Dx Dy Hxy. clear.
          generalize (2 ^ k * (y / 2 ^ k)) (x mod 2 ^ k) (y mod 2 ^ k). lia. }
        pose proof (round_up_mono (x / 2 ^ k) _ _ (2 ^ (k - 1)) Hr) as Um.
        destruct (round_up (x / 2 ^ k) (x mod 2 ^ k) (2 ^ (k - 1)));
          destruct (round_up (x / 2 ^ k) (y mod 2 ^ k) (2 ^ (k - 1)));
          try lia; discriminate (Um eq_refl).
      - do 2 destruct (round_up _ _ _); lia. }
    assert (Bx : 2 ^ 23 <= mx <= 2 ^ 24)
      by (unfold mx; revert Qx; clear; intros; destruct (round_up _ _ _); lia).
    assert (By : 2 ^ 23 <= my <= 2 ^ 24)
      by (unfold my; revert Qy; clear; intros; destruct (round_up _ _ _); lia).
    unfold renormalised. revert Hm Bx By.
    generalize mx my (2 ^ 23) (2 ^ 24). clear. intros mx my a b Hm Bx By.
    destruct (Z.eqb_spec mx b), (Z.eqb_spec my b); cbn [fst snd]; lia.
Qed.

Lemma of_Z_nearest z : digits (Z.abs z) <= 127 ->
  F32.of_Z z =
  match z with
  | Z0 => S754_zero false
  | Zpos _ => F32_of_nearest false z
  | Zneg _ => F32_of_nearest true (- z)
  end.
Proof.
  intros Hd. destruct z as [|p|p]; [reflexivity| |]; cbn [Z.abs] in Hd;
    unfold F32.of_Z, binary_normalize; now apply binary_round_nearest.
Qed.

Lemma Pos_compare_cont_Eq a b : Pos.compare_cont Eq a b = (Zpos a ?= Zpos b).
Proof. reflexivity. Qed.

Lemma SFleb_nearest x y : 0 < x -> x <= y ->
  SFleb (F32_of_nearest false x) (F32_of_nearest false y) = true /\
  SFleb (F32_of_nearest true y) (F32_of_nearest true x) = true.
Proof.
  intros Hx Hxy. assert (Hy : 0 < y) by lia.
  pose proof (nearest24_mono x y Hx Hxy) as L. unfold lex_le in L.
  destruct (nearest24_shape x Hx) as [Mx _], (nearest24_shape y Hy) as [My _].
  unfold SFleb, SFcompare, F32_of_nearest.
  rewrite !Pos_compare_cont_Eq, !Z2Pos.id by lia.
  rewrite (Z.compare_antisym (snd (nearest24 x)) (snd (nearest24 y))).
  rewrite (Z.compare_antisym (fst (nearest24 x)) (fst (nearest24 y))).
  destruct (Z.compare_spec (snd (nearest24 x)) (snd (nearest24 y)));
    destruct (Z.compare_spec (fst (nearest24 x)) (fst (nearest24 y)));
    cbn [CompOpp]; split; try reflexivity; lia.
Qed.

Lemma of_Z_le x y :
  digits (Z.abs x) <= 127 -> digits (Z.abs y) <= 127 -> x <= y ->
  SFleb (F32.of_Z x) (F32.of_Z y) = true.
Proof.
  intros Hx Hy Hxy. rewrite (of_Z_nearest x Hx), (of_Z_nearest y Hy).
  destruct x as [|p|p], y as [|q|q]; try lia; try reflexivity.
  - apply SFleb_nearest; lia.
  - apply (SFleb_nearest (- Zneg q) (- Zneg p)); lia.
Qed.

Lemma integral_value_nearest s z : 0 < z ->
  exists v, integral_value (F32_of_nearest s z) = Some (cond_Zopp s v) /\
            (digits z <= 24 -> v = z).
Proof.
  intros Hz. pose proof (digits_pos z Hz) as Hd. pose proof (digits_bounds z Hz) as Hb.
  destruct (nearest24_shape z Hz) as [Hm He0].
  unfold F32_of_nearest, integral_value.
  destruct (Z.leb_spec 0 (snd (nearest24 z))) as [He|He].
  - eexists; split; [reflexivity|]. intros Hs. revert He. unfold nearest24.
    destruct (Z.leb_spec (digits z) 24); [|lia]. cbn [fst snd]. intros He.
    replace (digits z - 24) with 0 by lia. replace (24 - digits z) with 0 by lia.
    rewrite Z2Pos.id, Z.pow_0_r by lia. lia.
  - revert Hm He. unfold nearest24.
    destruct (Z.leb_spec (digits z) 24) as [Hs|Hl]; cbn [fst snd].
    + intros Hm He. replace (- (digits z - 24)) with (24 - digits z) by lia.
      assert (0 < 2 ^ (24 - digits z)) by (apply Z.pow_pos_nonneg; lia).
      rewrite Z2Pos.id, Z.mod_mul, Z.div_mul by lia. cbn [Z.eqb].
      exists z. split; [reflexivity | reflexivity].
    + cbn zeta. unfold renormalised.
      match goal with |- context [?m =? 2 ^ 24] => destruct (Z.eqb_spec m (2 ^ 24)) end;
        cbn [fst snd]; lia.
Qed.

Lemma SFltb_irrefl a : SFltb a a = false.
Proof.
  unfold SFltb, SFcompare. destruct a as [s|s| |s m e]; try destruct s; try reflexivity;
    rewrite Z.compare_refl, Pos_compare_cont_Eq, Z.compare_refl; reflexivity.
Qed.

Lemma SFltb_trans a b c : SFltb a b = true -> SFltb b c = true -> SFltb a c = true.
Proof.
  unfold SFltb, SFcompare.
  destruct a as [sa|sa| |sa ma ea], b as [sb|sb| |sb mb eb], c as [sc|sc| |sc mc ec];
    try destruct sa; try destruct sb; try destruct sc;
    try discriminate; try reflexivity;
    rewrite ?Pos_compare_cont_Eq;
    repeat match goal with
           | |- context [?x ?= ?y] => destruct (Z.compare_spec x y)
           end;
    cbn [CompOpp]; intros; try discriminate; try reflexivity; lia.
Qed.

Lemma in_int_digits z : in_int z = true -> digits (Z.abs z) <= 127.
Proof.
  unfold in_int, INT_MIN, INT_MAX. intros H.
  apply andb_true_iff in H as [H1 H2]. apply Z.leb_le in H1, H2.
  unfold digits. destruct (Z.eq_dec z 0) as [->|Hz]; [cbn; lia|].
  assert (Z.log2 (Z.abs z) < 32); [|lia].
  apply Z.log2_lt_pow2; lia.
Qed.

End Rounding.

(** ** The cast of an [int] to [jfloat] *)

Section IntToFloat.

Lemma of_int_le (i j : int) :
  int_val i <= int_val j -> F32.leb (F32.of_int i) (F32.of_int j) = true.
Proof.
  intros H. unfold F32.leb, F32.of_int.
  apply of_Z_le; [apply in_int_digits, int_range ..| exact H].
Qed.

Lemma digits_small z : 0 < z < 2 ^ 24 -> digits z <= 24.
Proof.
  intros [Hz H]. unfold digits.
  assert (Z.log2 z < 24) by (apply Z.log2_lt_pow2; lia). lia.
Qed.

Lemma of_int_integral (i : int) :
  exists z, integral_value (F32.of_int i) = Some z /\
            (Z.abs (int_val i) < 2 ^ 24 -> z = int_val i).
Proof.
  unfold F32.of_int. rewrite of_Z_nearest by apply in_int_digits, int_range.
  destruct (int_val i) as [|p|p].
  - exists 0. split; [reflexivity | trivial].
  - destruct (integral_value_nearest false (Zpos p) eq_refl) as (v & E & Hv).
    exists v. split; [exact E|]. intros Hs. apply Hv, digits_small. lia.
  - destruct (integral_value_nearest true (- Zneg p) eq_refl) as (v & E & Hv).
    exists (- v). split; [exact E|]. intros Hs.
    rewrite Hv; [reflexivity|]. apply digits_small. cbn in *. lia.
Qed.

End IntToFloat.

(** ** The comparison and the reference sort *)

Section Sorting.

Lemma by_y_strict_weak_order : strict_weak_order by_y.
Proof.
  unfold strict_weak_order, by_y. repeat split; intros;
    repeat match goal with
           | H : (_ <? _) = true |- _ => apply Z.ltb_lt in H
           | H : (_ <? _) = false |- _ => apply Z.ltb_ge in H
           end;
    first [apply Z.ltb_lt | apply Z.ltb_ge]; lia.
Qed.

Lemma insert_perm lt p l : Permutation (p :: l) (Ref.insert lt p l).
Proof.
  induction l as [|q l IH]; cbn [Ref.insert].
  - apply Permutation_refl.
  - destruct (lt p q).
    + apply Permutation_refl.
    + eapply perm_trans; [apply perm_swap | apply perm_skip, IH].
Qed.

Lemma insert_sorted lt p l :
  strict_weak_order lt ->
  StronglySorted (fun a b => lt b a = false) l ->
  StronglySorted (fun a b => lt b a = false) (Ref.insert lt p l).
Proof.
  intros (Hirr & Htr & Hneg) Hs. induction Hs as [|q l Hs IH Hq]; cbn [Ref.insert].
  - constructor; constructor.
  - destruct (lt p q) eqn:Epq.
    + assert (Hqp : lt q p = false).
      { destruct (lt q p) eqn:Eqp; [|reflexivity].
        rewrite <- (Hirr p). symmetry. now apply Htr with q. }
      constructor; [constructor; assumption|].
      constructor; [exact Hqp|].
      eapply Forall_impl; [|exact Hq]. intros b Hb. now apply Hneg with q.
    + constructor; [exact IH|].
      apply (Permutation_Forall (insert_perm lt p l)).
      constructor; assumption.
Qed.

Lemma reference_sort_contract : std_sort_contract Ref.platform.
Proof.
  intros lt l Hlt. cbn [std_sort Ref.platform]. unfold Ref.insertion_sort.
  induction l as [|p l [IHp IHs]]; cbn [fold_right].
  - split; constructor.
  - split.
    + eapply perm_trans; [apply perm_skip, IHp | apply insert_perm].
    + now apply insert_sorted.
Qed.

End Sorting.

(** ** The contour scan *)

Section Scan.
Context {os : Platform} {cv : OpenCV}.

Lemma scan_contour_skips st c : survives c = false -> scan_contour st c = st.
Proof.
  unfold survives, scan_contour. intros H. destruct st as [maxArea best].
  destruct (F64.ltb (contourArea c) (F64.of_Z 1000)); [reflexivity | discriminate].
Qed.

Lemma scan_contour_not_quad st c : length (approx_of c) <> 4%nat -> scan_contour st c = st.
Proof.
  unfold scan_contour. intros H. destruct st as [maxArea best].
  destruct (F64.ltb (contourArea c) (F64.of_Z 1000)); [reflexivity|].
  destruct (Nat.eqb_spec (length (approx_of c)) 4); [contradiction | reflexivity].
Qed.

Lemma fold_scan_filter contours st :
  fold_left scan_contour contours st = fold_left scan_contour (filter survives contours) st.
Proof.
  revert st. induction contours as [|c l IH]; intros st; cbn [filter fold_left].
  - reflexivity.
  - destruct (survives c) eqn:E; cbn [fold_left].
    + apply IH.
    + rewrite scan_contour_skips by exact E. apply IH.
Qed.

Lemma fold_scan_nothing contours st :
  (forall c, In c contours -> survives c = false \/ length (approx_of c) <> 4%nat) ->
  fold_left scan_contour contours st = st.
Proof.
  revert st. induction contours as [|c l IH]; intros st H; cbn [fold_left].
  - reflexivity.
  - rewrite IH by (intros c' Hc'; apply H; now right).
    destruct (H c (or_introl eq_refl)).
    + now apply scan_contour_skips.
    + now apply scan_contour_not_quad.
Qed.

Lemma candidate_app_l seen c p : candidate seen p -> candidate (seen ++ [c]) p.
Proof.
  intros (c' & Hin & H). exists c'. split; [apply in_or_app; now left | exact H].
Qed.

Lemma candidate_last seen c p :
  candidate (seen ++ [c]) p ->
  candidate seen p \/ survives c = true /\ p = approx_of c /\ length p = 4%nat.
Proof.
  intros (c' & Hin & H). apply in_app_or in Hin as [Hin|[<-|[]]].
  - left. now exists c'.
  - right. exact H.
Qed.

Lemma scan_inv_step seen st c :
  scan_inv seen st -> scan_inv (seen ++ [c]) (scan_contour st c).
Proof.
  destruct st as [maxArea best]. intros [Hmax Hbest]. cbn [fst snd] in *.
  assert (Hkeep : scan_inv seen (maxArea, best) ->
                  (survives c = true -> length (approx_of c) = 4%nat ->
                   F64.ltb maxArea (F64.fabs (contourArea (approx_of c))) = false) ->
                  scan_inv (seen ++ [c]) (maxArea, best)).
  { intros [Hm Hb] Hc. split; cbn [fst snd] in *.
    - intros p Hp. apply candidate_last in Hp as [Hp|(Hs & -> & Hl)]; [now apply Hm|].
      now apply Hc.
    - destruct Hb as [Hb|[Hb E]]; [now left | right].
      split; [now apply candidate_app_l | exact E]. }
  unfold scan_contour.
  destruct (F64.ltb (contourArea c) (F64.of_Z 1000)) eqn:Ea.
  { apply Hkeep; [now split|]. unfold survives. rewrite Ea. discriminate. }
  destruct (Nat.eqb_spec (length (approx_of c)) 4) as [El|Nl]; cbn [andb].
  2:{ apply Hkeep; [now split | contradiction]. }
  destruct (F64.ltb maxArea (F64.fabs (contourArea (approx_of c)))) eqn:Eg.
  2:{ apply Hkeep; [now split | trivial]. }
  assert (Hc : candidate (seen ++ [c]) (approx_of c)).
  { exists c. repeat split; [apply in_or_app; right; now left | | exact El].
    unfold survives. now rewrite Ea. }
  split; cbn [fst snd].
  - intros p Hp. apply candidate_last in Hp as [Hp|(_ & -> & _)].
    + specialize (Hmax p Hp).
      destruct (F64.ltb (F64.fabs (contourArea (approx_of c))) (F64.fabs (contourArea p)))
        eqn:E; [|reflexivity].
      unfold F64.ltb in *. now rewrite (SFltb_trans _ _ _ Eg E) in Hmax.
    + apply SFltb_irrefl.
  - right. now split.
Qed.

Lemma scan_inv_fold l seen st :
  scan_inv seen st -> scan_inv (seen ++ l) (fold_left scan_contour l st).
Proof.
  revert seen st. induction l as [|c l IH]; intros seen st H; cbn [fold_left].
  - now rewrite app_nil_r.
  - replace (seen ++ c :: l) with ((seen ++ [c]) ++ l) by now rewrite <- app_assoc.
    apply IH, scan_inv_step, H.
Qed.

Lemma scan_inv_contours contours : scan_inv contours (scan_contours contours).
Proof.
  apply (scan_inv_fold contours []). split; cbn [fst snd].
  - intros p (c & [] & _).
  - now left.
Qed.

End Scan.

(** ** The corner ordering *)

Section Corners.
Context {os : Platform} {cv : OpenCV}.

(** What lines 54 to 59 compute from the sorted range. *)
Lemma order_corners_sorted (best : vector Point) :
  std_sort_contract os -> length best = 4%nat ->
  exists p0 p1 p2 p3,
    std_sort by_y best = [p0; p1; p2; p3] /\
    Permutation best [p0; p1; p2; p3] /\
    int_val (pt_y p0) <= int_val (pt_y p1) /\
    int_val (pt_y p1) <= int_val (pt_y p2) /\
    int_val (pt_y p2) <= int_val (pt_y p3).
Proof.
  intros Hsort Hlen.
  destruct (Hsort by_y best by_y_strict_weak_order) as [Hperm Hs].
  pose proof (Permutation_length Hperm) as Hl. rewrite Hlen in Hl.
  destruct (std_sort by_y best) as [|p0 [|p1 [|p2 [|p3 [|? ?]]]]]; try discriminate Hl.
  exists p0, p1, p2, p3. split; [reflexivity|]. split; [exact Hperm|].
  inversion Hs as [|? ? Hs1 H0]; subst.
  inversion Hs1 as [|? ? Hs2 H1]; subst.
  inversion Hs2 as [|? ? Hs3 H2]; subst.
  inversion H0 as [|? ? H01 _]; subst.
  inversion H1 as [|? ? H12 _]; subst.
  inversion H2 as [|? ? H23 _]; subst.
  unfold by_y in *. apply Z.ltb_ge in H01, H12, H23. lia.
Qed.

Lemma order_corners_inv (best : vector Point) q t :
  order_corners best = Some (q, t) ->
  exists p0 p1 p2 p3,
    std_sort by_y best = [p0; p1; p2; p3] /\ t = [] /\
    q = (if int_val (pt_x p0) <? int_val (pt_x p1) then p0 else p1,
         if int_val (pt_x p0) <? int_val (pt_x p1) then p1 else p0,
         if int_val (pt_x p2) <? int_val (pt_x p3) then p3 else p2,
         if int_val (pt_x p2) <? int_val (pt_x p3) then p2 else p3).
Proof.
  unfold order_corners.
  destruct (std_sort by_y best) as [|p0 [|p1 [|p2 [|p3 [|? ?]]]]]; try discriminate.
  intros H. injection H as <- <-. now exists p0, p1, p2, p3.
Qed.

Lemma quad_of_best_inv (best : vector Point) coords t :
  quad_of_best best = Some (Some coords, t) ->
  length best = 4%nat /\ t = [] /\
  exists q, order_corners best = Some (q, []) /\ coords = coords_of q.
Proof.
  unfold quad_of_best. destruct (Nat.eqb_spec (length best) 4) as [El|Nl]; cbn [negb].
  2:{ discriminate. }
  unfold bind. destruct (order_corners best) as [[q t']|] eqn:Eo; [|discriminate].
  destruct (order_corners_inv best q t' Eo) as (? & ? & ? & ? & _ & -> & _).
  cbn. intros H. injection H as <- <-. repeat split; try assumption. now exists q.
Qed.

Lemma detectDocumentContour_inv path coords t :
  detectDocumentContour path = Some (Some coords, t) ->
  Mat_empty (imread path) = false /\
  quad_of_best (snd (scan_contours (edge_contours (imread path)))) = Some (Some coords, t).
Proof.
  unfold detectDocumentContour. destruct (Mat_empty (imread path)).
  - discriminate.
  - intros H. split; [reflexivity | exact H].
Qed.

End Corners.

(** ** The warp *)

Section Warp.
Context {os : Platform} {cv : OpenCV}.

(** The path through [enhanceAndWarp] once the image is read and the polygon
    has its eight values: nothing but the two casts can stop it, and its
    result is the answer of [imwrite]. *)
Lemma enhanceAndWarp_runs inputPath outputPath polygon cols rows :
  Mat_empty (imread inputPath) = false ->
  (8 <= length polygon)%nat ->
  F64.to_int (maxWidth (src_point (firstn 8 polygon))) = Some cols ->
  F64.to_int (maxHeight (src_point (firstn 8 polygon))) = Some rows ->
  let enhanced := rectified (imread inputPath) (firstn 8 polygon) cols rows in
  let ok := imwrite outputPath enhanced [IMWRITE_JPEG_QUALITY; 95] in
  enhanceAndWarp inputPath outputPath polygon =
  Some (ok, [IMWRITE outputPath enhanced [IMWRITE_JPEG_QUALITY; 95] ok]).
Proof.
  intros Himg Hlen Hw Hh. unfold enhanceAndWarp. rewrite Himg.
  destruct (Z.ltb_spec (Z.of_nat (length polygon)) 8) as [H|_]; [lia|].
  unfold cast_int. rewrite Hw, Hh. unfold bind, ret, emit, rectified, transform.
  cbn [app]. cbv zeta.
  destruct (imwrite _ _ _); reflexivity.
Qed.

Lemma enhanceAndWarp_short inputPath outputPath polygon :
  (length polygon < 8)%nat ->
  exists fmt arg,
    enhanceAndWarp inputPath outputPath polygon = Some (JNI_FALSE, [ALOGE fmt arg]).
Proof.
  intros Hlen. unfold enhanceAndWarp. destruct (Mat_empty (imread inputPath)).
  - now eexists _, _.
  - destruct (Z.ltb_spec (Z.of_nat (length polygon)) 8) as [_|H]; [|lia].
    now eexists _, _.
Qed.

Lemma enhanceAndWarp_firstn inputPath outputPath polygon :
  (8 <= length polygon)%nat ->
  enhanceAndWarp inputPath outputPath polygon =
  enhanceAndWarp inputPath outputPath (firstn 8 polygon).
Proof.
  intros Hlen. unfold enhanceAndWarp.
  rewrite firstn_firstn, Nat.min_id, length_firstn, Nat.min_l by exact Hlen.
  destruct (Z.ltb_spec (Z.of_nat (length polygon)) 8) as [H|_]; [lia|].
  reflexivity.
Qed.

(** The cast of a positive double drops its fraction. *)
Lemma to_int_drops_fraction m e z :
  F64.to_int (S754_finite false m e) = Some z -> e < 0 ->
  z * 2 ^ (- e) <= Zpos m < (z + 1) * 2 ^ (- e).
Proof.
  cbn [F64.to_int cond_Zopp]. unfold F64.trunc_mag.
  destruct (Z.leb_spec 0 e) as [He|He]; [lia|]. destruct (in_int _); [|discriminate].
  intros Hz _. injection Hz as <-.
  assert (Hk : 0 < 2 ^ (- e)) by (apply Z.pow_pos_nonneg; lia).
  pose proof (Z.mul_div_le (Zpos m) (2 ^ (- e)) Hk).
  pose proof (Z.mul_succ_div_gt (Zpos m) (2 ^ (- e)) Hk). lia.
Qed.

(** A double that is at most 0 casts to an [int] that is at most 0. *)
Lemma to_int_nonpositive d z :
  F64.leb d (F64.of_Z 0) = true -> F64.to_int d = Some z -> z <= 0.
Proof.
  destruct d as [s|s| |s m e]; cbn [F64.to_int]; try discriminate.
  - intros _ H. injection H as <-. lia.
  - destruct s; [|discriminate]. intros _.
    destruct (in_int _); [|discriminate]. intros H. injection H as <-.
    cbn [cond_Zopp]. unfold F64.trunc_mag.
    destruct (Z.leb_spec 0 e).
    + assert (0 <= 2 ^ e) by (apply Z.pow_nonneg; lia). nia.
    + assert (0 <= Zpos m / 2 ^ (- e)); [|lia].
      apply Z.div_pos; [lia | apply Z.pow_pos_nonneg; lia].
Qed.

End Warp.

(** ** The miniature OpenCV keeps the promises *)

Section Miniature.

Lemma reference_size_contract : size_contract Ref.opencv.
Proof.
  split; [|split].
  - intros src M [w h] Hw Hh. cbn in *. unfold Ref.size_empty. cbn.
    destruct (Z.leb_spec w 0), (Z.leb_spec h 0); try lia. reflexivity.
  - reflexivity.
  - reflexivity.
Qed.

End Miniature.

(** * The claims *)

Section DetectClaims.
Context {os : Platform} {cv : OpenCV}.

(** C4.  Given the four points of [best], [detectDocumentContour] sorts them
    by [y] ascending; of the first two the one with the smaller [x] is TL and
    the other TR, of the last two the one with the smaller [x] is BL and the
    other BR; the array returned lists TL, TR, BR, BL. *)
Theorem corners_are_labelled (best : vector Point) :
  std_sort_contract os -> length best = 4%nat ->
  exists p0 p1 p2 p3,
    Permutation best [p0; p1; p2; p3] /\
    int_val (pt_y p0) <= int_val (pt_y p1) /\
    int_val (pt_y p1) <= int_val (pt_y p2) /\
    int_val (pt_y p2) <= int_val (pt_y p3) /\
    let tl := if int_val (pt_x p0) <? int_val (pt_x p1) then p0 else p1 in
    let tr := if int_val (pt_x p0) <? int_val (pt_x p1) then p1 else p0 in
    let bl := if int_val (pt_x p2) <? int_val (pt_x p3) then p2 else p3 in
    let br := if int_val (pt_x p2) <? int_val (pt_x p3) then p3 else p2 in
    order_corners best = ret (tl, tr, br, bl) /\
    quad_of_best best =
    ret (Some [ F32.of_int (pt_x tl); F32.of_int (pt_y tl);
                F32.of_int (pt_x tr); F32.of_int (pt_y tr);
                F32.of_int (pt_x br); F32.of_int (pt_y br);
                F32.of_int (pt_x bl); F32.of_int (pt_y bl) ]).
Proof.
  intros Hsort Hlen.
  destruct (order_corners_sorted best Hsort Hlen)
    as (p0 & p1 & p2 & p3 & Es & Hperm & H01 & H12 & H23).
  exists p0, p1, p2, p3. repeat (split; [assumption|]).
  cbv zeta. unfold quad_of_best, order_corners. rewrite Es, Hlen.
  split; reflexivity.
Qed.

(** C5.  When no contour of the edge map both survives the area filter and
    simplifies to four vertices (in particular when the edge map has no
    contour at all), [detectDocumentContour] returns [nullptr], logs nothing
    and has no undefined behaviour. *)
Theorem no_quad_is_not_found (imagePath : string) :
  Mat_empty (imread imagePath) = false ->
  (forall c, In c (edge_contours (imread imagePath)) ->
     survives c = false \/ length (approx_of c) <> 4%nat) ->
  detectDocumentContour imagePath = Some (None, []).
Proof.
  intros Himg Hnone. unfold detectDocumentContour. rewrite Himg.
  unfold quad_of_contours, scan_contours. rewrite fold_scan_nothing by exact Hnone.
  reflexivity.
Qed.

(** C6.  A contour whose area is below 1000 leaves [maxArea] and [best] as
    they are, so the result is the one the contours of area at least 1000
    alone would give, and the polygon kept, if any, is the approximation of a
    contour whose area is not below 1000. *)
Theorem small_contours_are_skipped (contours : vector (vector Point)) :
  (forall c st, F64.ltb (contourArea c) (F64.of_Z 1000) = true -> scan_contour st c = st) /\
  scan_contours contours = scan_contours (filter survives contours) /\
  quad_of_contours contours = quad_of_contours (filter survives contours) /\
  (snd (scan_contours contours) = [] \/
   exists c, In c contours /\
             F64.ltb (contourArea c) (F64.of_Z 1000) = false /\
             snd (scan_contours contours) = approx_of c).
Proof.
  assert (E : scan_contours contours = scan_contours (filter survives contours))
    by apply fold_scan_filter.
  split; [|split; [exact E | split]].
  - intros c st H. apply scan_contour_skips. unfold survives. now rewrite H.
  - unfold quad_of_contours. now rewrite E.
  - destruct (scan_inv_contours contours) as [_ [[H _]|[(c & Hin & Hs & Hbest & _) _]]].
    + now left.
    + right. exists c. repeat split; try assumption.
      unfold survives in Hs. now destruct (F64.ltb _ _).
Qed.

(** C9.  The array [detectDocumentContour] returns satisfies, as [jfloat]
    comparisons, TL.x <= TR.x, BL.x <= BR.x, and each of TL.y, TR.y is at most
    each of BL.y, BR.y, whatever the four points were. *)
Theorem quad_ordering_invariant (imagePath : string) (coords : vector jfloat) t :
  std_sort_contract os ->
  detectDocumentContour imagePath = Some (Some coords, t) ->
  exists tl_x tl_y tr_x tr_y br_x br_y bl_x bl_y,
    coords = [tl_x; tl_y; tr_x; tr_y; br_x; br_y; bl_x; bl_y] /\
    F32.leb tl_x tr_x = true /\ F32.leb bl_x br_x = true /\
    F32.leb tl_y bl_y = true /\ F32.leb tl_y br_y = true /\
    F32.leb tr_y bl_y = true /\ F32.leb tr_y br_y = true.
Proof.
  intros Hsort Hrun.
  apply detectDocumentContour_inv in Hrun as [_ Hrun].
  apply quad_of_best_inv in Hrun as (Hlen & _ & q & Hq & ->).
  destruct (order_corners_sorted _ Hsort Hlen)
    as (p0 & p1 & p2 & p3 & Es & _ & H01 & H12 & H23).
  apply order_corners_inv in Hq as (q0 & q1 & q2 & q3 & Es' & _ & ->).
  rewrite Es in Es'. injection Es' as <- <- <- <-.
  cbn [coords_of]. do 8 eexists. split; [reflexivity|].
  destruct (Z.ltb_spec (int_val (pt_x p0)) (int_val (pt_x p1))),
           (Z.ltb_spec (int_val (pt_x p2)) (int_val (pt_x p3)));
    repeat split; apply of_int_le; lia.
Qed.

(** C10.  Every value of the array [detectDocumentContour] returns is the
    cast of an [int] to [jfloat], and the exact value of such a float is an
    integer: the [int] itself when its magnitude is below 2^24, the nearest
    multiple of a power of two otherwise. *)
Theorem quad_coordinates_are_integers (imagePath : string) (coords : vector jfloat) t :
  detectDocumentContour imagePath = Some (Some coords, t) ->
  length coords = 8%nat /\
  Forall (fun v => exists i : int,
                     v = F32.of_int i /\
                     exists z, integral_value v = Some z /\
                               (Z.abs (int_val i) < 2 ^ 24 -> z = int_val i))
         coords.
Proof.
  intros Hrun.
  apply detectDocumentContour_inv in Hrun as [_ Hrun].
  apply quad_of_best_inv in Hrun as (_ & _ & [[[tl tr] br] bl] & _ & ->).
  split; [reflexivity|]. cbn [coords_of].
  repeat (constructor;
          [match goal with
           | |- exists i, F32.of_int ?j = _ /\ _ =>
               exists j; split; [reflexivity | apply of_int_integral]
           end|]).
  constructor.
Qed.

End DetectClaims.

Section LargestQuad.
Context {os : Platform} {cv : OpenCV}.

(** [maxArea] starts at 0 with [best] empty, and only ever grows. *)
Lemma scan_positive l st :
  snd st = [] /\ fst st = F64.of_Z 0 \/ F64.ltb (F64.of_Z 0) (fst st) = true ->
  snd (fold_left scan_contour l st) = [] /\ fst (fold_left scan_contour l st) = F64.of_Z 0 \/
  F64.ltb (F64.of_Z 0) (fst (fold_left scan_contour l st)) = true.
Proof.
  revert st. induction l as [|c l IH]; intros st H; cbn [fold_left]; [exact H|].
  apply IH. destruct st as [maxArea best]. unfold scan_contour. cbn [fst snd] in *.
  destruct (F64.ltb (contourArea c) (F64.of_Z 1000)); [exact H|].
  destruct (length (approx_of c) =? 4)%nat; cbn [andb]; [|exact H].
  destruct (F64.ltb maxArea (F64.fabs (contourArea (approx_of c)))) eqn:E; [|exact H].
  right. cbn [fst]. destruct H as [[_ ->]|H]; [exact E|].
  unfold F64.ltb in *. exact (SFltb_trans _ _ _ H E).
Qed.

(** Lines 47 to 69 on a polygon of four vertices: the array holds the
    coordinates of those four vertices, the upper two first. *)
Lemma quad_of_best_array (best : vector Point) :
  std_sort_contract os -> length best = 4%nat ->
  exists tl tr br bl,
    Permutation best [tl; tr; br; bl] /\
    int_val (pt_x tl) <= int_val (pt_x tr) /\ int_val (pt_x bl) <= int_val (pt_x br) /\
    int_val (pt_y tl) <= int_val (pt_y bl) /\ int_val (pt_y tl) <= int_val (pt_y br) /\
    int_val (pt_y tr) <= int_val (pt_y bl) /\ int_val (pt_y tr) <= int_val (pt_y br) /\
    quad_of_best best =
    Some (Some [ F32.of_int (pt_x tl); F32.of_int (pt_y tl);
                 F32.of_int (pt_x tr); F32.of_int (pt_y tr);
                 F32.of_int (pt_x br); F32.of_int (pt_y br);
                 F32.of_int (pt_x bl); F32.of_int (pt_y bl) ], []).
Proof.
  intros Hsort Hlen.
  destruct (order_corners_sorted best Hsort Hlen)
    as (p0 & p1 & p2 & p3 & Es & Hperm & H01 & H12 & H23).
  unfold quad_of_best, order_corners. rewrite Es, Hlen. cbn [Nat.eqb negb].
  destruct (Z.ltb_spec (int_val (pt_x p0)) (int_val (pt_x p1))),
           (Z.ltb_spec (int_val (pt_x p2)) (int_val (pt_x p3)));
    do 4 eexists; (split; [|repeat split; try reflexivity; lia]);
    (eapply perm_trans; [exact Hperm|]).
  - do 2 apply perm_skip. apply perm_swap.
  - apply Permutation_refl.
  - eapply perm_trans; [apply perm_swap|]. do 2 apply perm_skip. apply perm_swap.
  - apply perm_swap.
Qed.

(** C7, as the code has it.  [maxArea] starts at 0 and a polygon is kept only
    when its area is above [maxArea].  So, on an image that is read and with
    a [std::sort] that keeps its contract: when no surviving four-vertex
    polygon has an area above 0, [detectDocumentContour] returns [nullptr],
    even if such polygons exist; otherwise the polygon kept is a surviving
    four-vertex polygon of area above 0, no surviving four-vertex polygon has
    a larger area, and the array returned holds the coordinates of its four
    vertices, the upper two first and the left one first in the upper pair,
    the right one first in the lower pair. *)
Theorem largest_positive_quad_is_returned (imagePath : string) :
  std_sort_contract os ->
  Mat_empty (imread imagePath) = false ->
  let contours := edge_contours (imread imagePath) in
  let best := snd (scan_contours contours) in
  (forall p, candidate contours p ->
     F64.ltb (F64.of_Z 0) (F64.fabs (contourArea p)) = false) /\
  detectDocumentContour imagePath = Some (None, [])
  \/
  candidate contours best /\
  F64.ltb (F64.of_Z 0) (F64.fabs (contourArea best)) = true /\
  (forall p, candidate contours p ->
     F64.ltb (F64.fabs (contourArea best)) (F64.fabs (contourArea p)) = false) /\
  exists tl tr br bl,
    Permutation best [tl; tr; br; bl] /\
    int_val (pt_x tl) <= int_val (pt_x tr) /\ int_val (pt_x bl) <= int_val (pt_x br) /\
    int_val (pt_y tl) <= int_val (pt_y bl) /\ int_val (pt_y tl) <= int_val (pt_y br) /\
    int_val (pt_y tr) <= int_val (pt_y bl) /\ int_val (pt_y tr) <= int_val (pt_y br) /\
    detectDocumentContour imagePath =
    Some (Some [ F32.of_int (pt_x tl); F32.of_int (pt_y tl);
                 F32.of_int (pt_x tr); F32.of_int (pt_y tr);
                 F32.of_int (pt_x br); F32.of_int (pt_y br);
                 F32.of_int (pt_x bl); F32.of_int (pt_y bl) ], []).
Proof.
  intros Hsort Himg contours best.
  assert (Erun : detectDocumentContour imagePath = quad_of_best best).
  { unfold detectDocumentContour. now rewrite Himg. }
  rewrite Erun. subst best.
  destruct (scan_inv_contours contours) as [Hmax [[Hb Hm]|[Hc Hm]]].
  - left. split; [now rewrite Hm in Hmax|]. now rewrite Hb.
  - right. rewrite Hm in Hmax. split; [exact Hc|].
    assert (Hlen : length (snd (scan_contours contours)) = 4%nat)
      by now destruct Hc as (c & _ & _ & _ & Hl).
    split; [|split; [exact Hmax | now apply quad_of_best_array]].
    destruct (scan_positive contours (F64.of_Z 0, []) (or_introl (conj eq_refl eq_refl)))
      as [[Hb _]|Hpos].
    + fold (scan_contours contours) in Hb. rewrite Hb in Hlen. discriminate Hlen.
    + fold (scan_contours contours) in Hpos. now rewrite Hm in Hpos.
Qed.

End LargestQuad.

Section WarpClaims.
Context {os : Platform} {cv : OpenCV}.

(** C1, as the code has it.  [enhanceAndWarp] does not test the inferred
    width and height.  When one of them is at most 0 (and the image is read,
    the polygon has its eight values and the two casts are defined) it asks
    [warpPerspective] for a size whose width or height is at most 0,
    thresholds what comes back, hands it to [imwrite], and returns what
    [imwrite] answers. *)
Theorem degenerate_quad_is_warped inputPath outputPath polygon cols rows :
  Mat_empty (imread inputPath) = false ->
  (8 <= length polygon)%nat ->
  let w := maxWidth (src_point (firstn 8 polygon)) in
  let h := maxHeight (src_point (firstn 8 polygon)) in
  F64.leb w (F64.of_Z 0) = true \/ F64.leb h (F64.of_Z 0) = true ->
  F64.to_int w = Some cols ->
  F64.to_int h = Some rows ->
  let enhanced := rectified (imread inputPath) (firstn 8 polygon) cols rows in
  let ok := imwrite outputPath enhanced [IMWRITE_JPEG_QUALITY; 95] in
  (cols <= 0 \/ rows <= 0) /\
  enhanceAndWarp inputPath outputPath polygon =
  Some (ok, [IMWRITE outputPath enhanced [IMWRITE_JPEG_QUALITY; 95] ok]).
Proof.
  intros Himg Hlen w h Hdeg Hw Hh. split.
  - destruct Hdeg as [H|H]; [left | right]; eapply to_int_nonpositive; eassumption.
  - now apply enhanceAndWarp_runs.
Qed.

(** C2, as the code has it.  With TL, TR, BR, BL the four points of the
    polygon (the image read, the polygon of at least eight values, the two
    casts defined), the width is the larger of the sides BR-BL and TR-TL and
    the height the larger of the sides TR-BR and TL-BL; [warpPerspective] is
    asked for the size these two give when cast to [int], that is truncated
    toward zero, and the image written is the threshold of that warp.  It has
    exactly that size whenever both truncated dimensions are positive and
    the three OpenCV calls return images of their documented size. *)
Theorem rectified_size_is_truncated inputPath outputPath polygon cols rows :
  Mat_empty (imread inputPath) = false ->
  (8 <= length polygon)%nat ->
  let pts := firstn 8 polygon in
  let tl := src_point pts 0 in
  let tr := src_point pts 1 in
  let br := src_point pts 2 in
  let bl := src_point pts 3 in
  F64.to_int (F64.max (side br bl) (side tr tl)) = Some cols ->
  F64.to_int (F64.max (side tr br) (side tl bl)) = Some rows ->
  let warped := warpPerspective (imread inputPath) (transform pts) (mk_Size cols rows) in
  let ok := imwrite outputPath (enhance warped) [IMWRITE_JPEG_QUALITY; 95] in
  enhanceAndWarp inputPath outputPath polygon =
  Some (ok, [IMWRITE outputPath (enhance warped) [IMWRITE_JPEG_QUALITY; 95] ok]) /\
  (size_contract cv -> 0 < cols -> 0 < rows ->
   Mat_size (enhance warped) = mk_Size cols rows).
Proof.
  intros Himg Hlen pts tl tr br bl Hw Hh warped ok. split.
  - now apply enhanceAndWarp_runs.
  - intros (Hwarp & Hcvt & Hthr) Hc Hr. unfold enhance.
    rewrite Hthr, Hcvt. now apply Hwarp.
Qed.

(** C3, as the code has it.  A polygon of fewer than 8 values is refused:
    the call logs one error, writes nothing and returns [JNI_FALSE].  A
    polygon of more than 8 values is not refused: the call does what it does
    for the first 8 values alone. *)
Theorem polygon_length_guard inputPath outputPath polygon :
  ((length polygon < 8)%nat ->
   exists fmt arg,
     enhanceAndWarp inputPath outputPath polygon = Some (JNI_FALSE, [ALOGE fmt arg])) /\
  ((8 <= length polygon)%nat ->
   enhanceAndWarp inputPath outputPath polygon =
   enhanceAndWarp inputPath outputPath (firstn 8 polygon)).
Proof.
  split.
  - apply enhanceAndWarp_short.
  - apply enhanceAndWarp_firstn.
Qed.

End WarpClaims.

(** * Runs on the reference platform *)

Section ReferenceRuns.
#[local] Existing Instance Ref.platform.
#[local] Existing Instance Ref.opencv.

(** The scenario of the specification: the page is detected with its corners
    in the order TL, TR, BR, BL. *)
Example detect_page : detectDocumentContour "page.jpg" = Some (Some Ref.scenario_polygon, []).
Proof. reflexivity. Qed.

Example detect_blank : detectDocumentContour "blank.jpg" = Some (None, []).
Proof. reflexivity. Qed.

(** A file that cannot be read: line 21 reads the released path. *)
Example detect_missing_file : detectDocumentContour "nowhere.jpg" = None.
Proof. reflexivity. Qed.

(** C1: four coincident corners give a width and a height of 0, and the call
    is not refused: it writes an image and returns [JNI_TRUE]. *)
Lemma coincident_corners_not_refused :
  maxWidth (src_point Ref.coincident) = S754_zero false /\
  maxHeight (src_point Ref.coincident) = S754_zero false /\
  enhanceAndWarp "page.jpg" "out.jpg" Ref.coincident =
  Some (JNI_TRUE,
        [IMWRITE "out.jpg" (rectified Ref.page Ref.coincident 0 0)
           [IMWRITE_JPEG_QUALITY; 95] true]).
Proof. repeat split; reflexivity. Qed.

(** The same polygon meets the hypotheses of [degenerate_quad_is_warped]. *)
Lemma degenerate_quad_is_warped_coincident :
  F64.leb (maxWidth (src_point Ref.coincident)) (F64.of_Z 0) = true /\
  (0 <= 0 \/ 0 <= 0) /\
  enhanceAndWarp "page.jpg" "out.jpg" Ref.coincident =
  Some (true,
        [IMWRITE "out.jpg" (rectified Ref.page Ref.coincident 0 0)
           [IMWRITE_JPEG_QUALITY; 95] true]).
Proof.
  split; [reflexivity|].
  exact (degenerate_quad_is_warped (os := Ref.platform) (cv := Ref.opencv)
           "page.jpg" "out.jpg" Ref.coincident 0 0
           eq_refl (le_n 8) (or_introl eq_refl) eq_refl eq_refl).
Defined.

(** C2: a square of side 1.5 is written as a 1 x 1 image, where the ceiling
    of the side is 2. *)
Lemma rectified_size_is_not_ceiling :
  maxWidth (src_point Ref.small_square) = S754_finite false 6755399441055744 (-52) /\
  maxHeight (src_point Ref.small_square) = S754_finite false 6755399441055744 (-52) /\
  integral_value (F64.mul (S754_finite false 6755399441055744 (-52)) (F64.of_Z 2)) = Some 3 /\
  ceiling (S754_finite false 6755399441055744 (-52)) = Some 2 /\
  enhanceAndWarp "page.jpg" "out.jpg" Ref.small_square =
  Some (JNI_TRUE,
        [IMWRITE "out.jpg" (rectified Ref.page Ref.small_square 1 1)
           [IMWRITE_JPEG_QUALITY; 95] true]) /\
  Mat_size (rectified Ref.page Ref.small_square 1 1) = mk_Size 1 1.
Proof. repeat split; reflexivity. Qed.

(** The quadrilateral of the scenario, sides 600.33 and 450.99, is written
    as a 600 x 450 image. *)
Lemma rectified_size_scenario :
  enhanceAndWarp "page.jpg" "out.jpg" Ref.scenario_polygon =
  Some (true,
        [IMWRITE "out.jpg" (rectified Ref.page Ref.scenario_polygon 600 450)
           [IMWRITE_JPEG_QUALITY; 95] true]) /\
  Mat_size (rectified Ref.page Ref.scenario_polygon 600 450) = mk_Size 600 450.
Proof.
  destruct (rectified_size_is_truncated (os := Ref.platform) (cv := Ref.opencv)
              "page.jpg" "out.jpg" Ref.scenario_polygon 600 450
              eq_refl (le_n 8) eq_refl eq_refl) as [Hrun Hsize].
  split; [exact Hrun|].
  apply Hsize; [exact reference_size_contract | lia | lia].
Defined.

(** C3: ten values are not refused; the call runs on the first eight. *)
Lemma ten_values_are_accepted :
  length Ref.ten_values = 10%nat /\
  enhanceAndWarp "page.jpg" "out.jpg" Ref.ten_values =
  Some (JNI_TRUE,
        [IMWRITE "out.jpg" (rectified Ref.page Ref.scenario_polygon 600 450)
           [IMWRITE_JPEG_QUALITY; 95] true]).
Proof. split; reflexivity. Qed.

(** Six values are refused. *)
Lemma polygon_length_guard_six_values :
  (length Ref.six_values < 8)%nat /\
  exists fmt arg,
    enhanceAndWarp "page.jpg" "out.jpg" Ref.six_values = Some (JNI_FALSE, [ALOGE fmt arg]).
Proof.
  assert (H : (length Ref.six_values < 8)%nat) by (cbn; lia).
  split; [exact H|].
  exact (proj1 (polygon_length_guard (os := Ref.platform) (cv := Ref.opencv)
           "page.jpg" "out.jpg" Ref.six_values) H).
Defined.

(** C4: the corners of the document, which the contour lists from TR on. *)
Lemma corners_are_labelled_document :
  length Ref.document = 4%nat /\
  exists p0 p1 p2 p3,
    Permutation Ref.document [p0; p1; p2; p3] /\
    int_val (pt_y p0) <= int_val (pt_y p1) /\
    int_val (pt_y p1) <= int_val (pt_y p2) /\
    int_val (pt_y p2) <= int_val (pt_y p3) /\
    let tl := if int_val (pt_x p0) <? int_val (pt_x p1) then p0 else p1 in
    let tr := if int_val (pt_x p0) <? int_val (pt_x p1) then p1 else p0 in
    let bl := if int_val (pt_x p2) <? int_val (pt_x p3) then p2 else p3 in
    let br := if int_val (pt_x p2) <? int_val (pt_x p3) then p3 else p2 in
    order_corners Ref.document = ret (tl, tr, br, bl) /\
    quad_of_best Ref.document =
    ret (Some [ F32.of_int (pt_x tl); F32.of_int (pt_y tl);
                F32.of_int (pt_x tr); F32.of_int (pt_y tr);
                F32.of_int (pt_x br); F32.of_int (pt_y br);
                F32.of_int (pt_x bl); F32.of_int (pt_y bl) ]).
Proof.
  split; [reflexivity|].
  exact (corners_are_labelled (os := Ref.platform) (cv := Ref.opencv)
           Ref.document reference_sort_contract eq_refl).
Defined.

(** C5: a speck of area 400 and a triangle make no quadrilateral. *)
Lemma no_quad_is_not_found_specks :
  edge_contours (imread "specks.jpg") = [Ref.speck; Ref.triangle] /\
  detectDocumentContour "specks.jpg" = Some (None, []).
Proof.
  split; [reflexivity|].
  apply (no_quad_is_not_found (os := Ref.platform) (cv := Ref.opencv)
           "specks.jpg" eq_refl).
  intros c [<-|[<-|[]]]; [left; reflexivity | right; discriminate].
Defined.

(** C6: on the page, the speck changes nothing. *)
Lemma small_contours_are_skipped_page :
  filter survives (Ref.im_outlines Ref.page) = [Ref.label; Ref.triangle; Ref.document] /\
  quad_of_contours (Ref.im_outlines Ref.page) =
  quad_of_contours (filter survives (Ref.im_outlines Ref.page)).
Proof.
  split; [reflexivity|].
  exact (proj1 (proj2 (proj2 (small_contours_are_skipped (os := Ref.platform) (cv := Ref.opencv)
           (Ref.im_outlines Ref.page))))).
Defined.

(** C7 on the page: of the label, of area 5000, and the document, the
    document is kept and its four corners are returned. *)
Lemma largest_positive_quad_is_returned_page :
  snd (scan_contours (edge_contours (imread "page.jpg"))) = Ref.document /\
  F64.ltb (F64.of_Z 0) (F64.fabs (contourArea Ref.document)) = true /\
  (forall p, candidate (edge_contours (imread "page.jpg")) p ->
     F64.ltb (F64.fabs (contourArea Ref.document)) (F64.fabs (contourArea p)) = false) /\
  exists tl tr br bl,
    Permutation Ref.document [tl; tr; br; bl] /\
    int_val (pt_x tl) <= int_val (pt_x tr) /\ int_val (pt_x bl) <= int_val (pt_x br) /\
    int_val (pt_y tl) <= int_val (pt_y bl) /\ int_val (pt_y tl) <= int_val (pt_y br) /\
    int_val (pt_y tr) <= int_val (pt_y bl) /\ int_val (pt_y tr) <= int_val (pt_y br) /\
    detectDocumentContour "page.jpg" =
    Some (Some [ F32.of_int (pt_x tl); F32.of_int (pt_y tl);
                 F32.of_int (pt_x tr); F32.of_int (pt_y tr);
                 F32.of_int (pt_x br); F32.of_int (pt_y br);
                 F32.of_int (pt_x bl); F32.of_int (pt_y bl) ], []).
Proof.
  split; [reflexivity|].
  destruct (largest_positive_quad_is_returned (os := Ref.platform) (cv := Ref.opencv)
              "page.jpg" reference_sort_contract eq_refl) as [[_ E]|(_ & H)].
  - rewrite detect_page in E. discriminate E.
  - exact H.
Defined.

(** C9 and C10 on the page. *)
Lemma quad_ordering_invariant_page :
  exists tl_x tl_y tr_x tr_y br_x br_y bl_x bl_y,
    Ref.scenario_polygon = [tl_x; tl_y; tr_x; tr_y; br_x; br_y; bl_x; bl_y] /\
    F32.leb tl_x tr_x = true /\ F32.leb bl_x br_x = true /\
    F32.leb tl_y bl_y = true /\ F32.leb tl_y br_y = true /\
    F32.leb tr_y bl_y = true /\ F32.leb tr_y br_y = true.
Proof.
  exact (quad_ordering_invariant (os := Ref.platform) (cv := Ref.opencv)
           "page.jpg" Ref.scenario_polygon []
           reference_sort_contract detect_page).
Defined.

Lemma quad_coordinates_are_integers_page :
  length Ref.scenario_polygon = 8%nat /\
  Forall (fun v => exists i : int,
                     v = F32.of_int i /\
                     exists z, integral_value v = Some z /\
                               (Z.abs (int_val i) < 2 ^ 24 -> z = int_val i))
         Ref.scenario_polygon.
Proof.
  exact (quad_coordinates_are_integers (os := Ref.platform) (cv := Ref.opencv)
           "page.jpg" Ref.scenario_polygon [] detect_page).
Defined.

End ReferenceRuns.

(** ** A run on the second miniature *)

Section PinchedRun.
#[local] Existing Instance Ref.platform.
#[local] Existing Instance RefDP.opencv.

(** C7: the only contour of the image has an area of 5000 and simplifies to
    four vertices, but to the four of a bow tie, whose area is 0: the polygon
    of largest area among the surviving four-vertex polygons is not returned,
    the result is [nullptr]. *)
Lemma zero_area_quad_is_not_found :
  Mat_empty (imread "pinched.jpg") = false /\
  edge_contours (imread "pinched.jpg") = [RefDP.bumped] /\
  contourArea RefDP.bumped = F64.of_Z 5000 /\
  survives RefDP.bumped = true /\
  approx_of RefDP.bumped = RefDP.bowtie /\
  length RefDP.bowtie = 4%nat /\
  F64.fabs (contourArea RefDP.bowtie) = F64.of_Z 0 /\
  detectDocumentContour "pinched.jpg" = Some (None, []).
Proof.
  split; [reflexivity|]. split; [reflexivity|]. split; [reflexivity|].
  split; [reflexivity|]. split; [reflexivity|]. split; [reflexivity|].
  split; reflexivity.
Qed.

End PinchedRun.

(** * Further properties of the two functions *)

(** ** Outcomes *)

Section Outcomes.
Context {os : Platform} {cv : OpenCV}.


(** The three ways through [enhanceAndWarp]. *)
Lemma enhanceAndWarp_cases inputPath outputPath polygon :
  let pts := firstn 8 polygon in
  Mat_empty (imread inputPath) = true /\
  enhanceAndWarp inputPath outputPath polygon =
  Some (JNI_FALSE, [ALOGE "Failed to load image for warp: %s" (arg_str inputPath)]) \/
  Mat_empty (imread inputPath) = false /\ (length polygon < 8)%nat /\
  enhanceAndWarp inputPath outputPath polygon =
  Some (JNI_FALSE,
        [ALOGE "Polygon length invalid: %d" (arg_int (Z.of_nat (length polygon)))]) \/
  Mat_empty (imread inputPath) = false /\ (8 <= length polygon)%nat /\
  enhanceAndWarp inputPath outputPath polygon =
  match F64.to_int (maxWidth (src_point pts)), F64.to_int (maxHeight (src_point pts)) with
  | Some cols, Some rows =>
      let enhanced := rectified (imread inputPath) pts cols rows in
      let ok := imwrite outputPath enhanced [IMWRITE_JPEG_QUALITY; 95] in
      Some (ok, [IMWRITE outputPath enhanced [IMWRITE_JPEG_QUALITY; 95] ok])
  | _, _ => None
  end.
Proof.
  intros pts. destruct (Mat_empty (imread inputPath)) eqn:Himg.
  - left. split; [reflexivity|]. unfold enhanceAndWarp. now rewrite Himg.
  - right. destruct (Nat.lt_ge_cases (length polygon) 8) as [Hlen|Hlen].
    + left. repeat split; [exact Hlen|]. unfold enhanceAndWarp. rewrite Himg.
      destruct (Z.ltb_spec (Z.of_nat (length polygon)) 8); [reflexivity | lia].
    + right. repeat split; [exact Hlen|].
      destruct (F64.to_int (maxWidth (src_point pts))) as [cols|] eqn:Hw.
      2:{ unfold enhanceAndWarp. rewrite Himg.
          destruct (Z.ltb_spec (Z.of_nat (length polygon)) 8); [lia|].
          unfold cast_int. fold pts. now rewrite Hw. }
      destruct (F64.to_int (maxHeight (src_point pts))) as [rows|] eqn:Hh.
      * now apply enhanceAndWarp_runs.
      * unfold enhanceAndWarp. rewrite Himg.
        destruct (Z.ltb_spec (Z.of_nat (length polygon)) 8); [lia|].
        unfold cast_int. fold pts. now rewrite Hw, Hh.
Qed.



(** X2.  What a result of [enhanceAndWarp] says.  [JNI_TRUE] is returned only
    after exactly one image was handed to [imwrite], under [outputPath] and
    with JPEG quality 95, and [imwrite] succeeded.  [JNI_FALSE] is returned
    either with one error logged and nothing written, or after the one
    [imwrite] failed. *)
Theorem enhanceAndWarp_outcomes inputPath outputPath polygon result trace :
  enhanceAndWarp inputPath outputPath polygon = Some (result, trace) ->
  (result = JNI_TRUE ->
   Mat_empty (imread inputPath) = false /\ (8 <= length polygon)%nat /\
   exists img,
     trace = [IMWRITE outputPath img [IMWRITE_JPEG_QUALITY; 95] true] /\
     imwrite outputPath img [IMWRITE_JPEG_QUALITY; 95] = true) /\
  (result = JNI_FALSE ->
   (exists fmt arg, trace = [ALOGE fmt arg]) \/
   exists img,
     trace = [IMWRITE outputPath img [IMWRITE_JPEG_QUALITY; 95] false] /\
     imwrite outputPath img [IMWRITE_JPEG_QUALITY; 95] = false).
Proof.
  intros Hrun.
  destruct (enhanceAndWarp_cases inputPath outputPath polygon)
    as [[_ E]|[(_ & _ & E)|(Himg & Hlen & E)]]; rewrite E in Hrun.
  - injection Hrun as <- <-. split; [discriminate|]. intros _. left. now eexists _, _.
  - injection Hrun as <- <-. split; [discriminate|]. intros _. left. now eexists _, _.
  - destruct (F64.to_int (maxWidth _)) as [cols|]; [|discriminate].
    destruct (F64.to_int (maxHeight _)) as [rows|]; [|discriminate].
    cbv zeta in Hrun.
    set (img := rectified (imread inputPath) (firstn 8 polygon) cols rows) in Hrun.
    injection Hrun as Hr <-. split; intros ->.
    + repeat split; try assumption. exists img. now rewrite Hr.
    + right. exists img. now rewrite Hr.
Qed.

(** X10.  The two functions compose: an array [detectDocumentContour]
    returns for an image is never refused by [enhanceAndWarp] on that image.
    The call reaches the warp: it hands one image to [imwrite], unless a cast
    of the inferred size is undefined. *)
Theorem detected_quad_is_warped path outputPath coords t :
  detectDocumentContour path = Some (Some coords, t) ->
  enhanceAndWarp path outputPath coords = None \/
  exists img ok,
    enhanceAndWarp path outputPath coords =
    Some (ok, [IMWRITE outputPath img [IMWRITE_JPEG_QUALITY; 95] ok]).
Proof.
  intros Hrun. apply detectDocumentContour_inv in Hrun as [Himg Hrun].
  apply quad_of_best_inv in Hrun as (_ & _ & [[[tl tr] br] bl] & _ & ->).
  destruct (enhanceAndWarp_cases path outputPath (coords_of (tl, tr, br, bl)))
    as [[H _]|[(_ & H & _)|(_ & _ & E)]].
  - congruence.
  - cbn in H. lia.
  - rewrite E. destruct (F64.to_int (maxWidth _)) as [cols|]; [|now left].
    destruct (F64.to_int (maxHeight _)) as [rows|]; [|now left].
    right. now eexists _, _.
Qed.

End Outcomes.

(** ** The corners returned *)

Section CornersMore.
Context {os : Platform} {cv : OpenCV}.

(** Two lists sorted by [y] that hold the same points, no two of them with
    the same [y], are the same list. *)
Lemma sorted_by_y_unique (l1 l2 : vector Point) :
  StronglySorted (fun a b => by_y b a = false) l1 ->
  StronglySorted (fun a b => by_y b a = false) l2 ->
  Permutation l1 l2 -> distinct_y l1 -> l1 = l2.
Proof.
  intros H1. revert l2. induction H1 as [|a l1 Hs1 IH Ha]; intros l2 H2 Hperm Hd.
  - apply Permutation_nil in Hperm. now subst.
  - destruct H2 as [|b l2 Hs2 Hb].
    + apply Permutation_sym, Permutation_nil in Hperm. discriminate.
    + assert (Eab : a = b).
      { assert (Ina : In a (b :: l2)) by (apply (Permutation_in _ Hperm); now left).
        assert (Inb : In b (a :: l1))
          by (apply (Permutation_in _ (Permutation_sym Hperm)); now left).
        apply Hd; [now left | exact Inb|].
        assert (Lab : int_val (pt_y a) <= int_val (pt_y b)).
        { destruct Inb as [<-|Inb]; [lia|].
          rewrite Forall_forall in Ha. specialize (Ha b Inb).
          unfold by_y in Ha. now apply Z.ltb_ge in Ha. }
        assert (Lba : int_val (pt_y b) <= int_val (pt_y a)).
        { destruct Ina as [<-|Ina]; [lia|].
          rewrite Forall_forall in Hb. specialize (Hb a Ina).
          unfold by_y in Hb. now apply Z.ltb_ge in Hb. }
        lia. }
      subst b. f_equal. apply IH; [exact Hs2 | now apply Permutation_cons_inv in Hperm|].
      intros x y Hx Hy. apply Hd; now right.
Qed.

(** X4.  The four corners [detectDocumentContour] returns are the four
    vertices of the polygon it kept: none is dropped, repeated or changed. *)
Theorem returned_corners_are_the_vertices (best : vector Point) coords t :
  std_sort_contract os ->
  quad_of_best best = Some (Some coords, t) ->
  exists tl tr br bl,
    Permutation best [tl; tr; br; bl] /\ coords = coords_of (tl, tr, br, bl).
Proof.
  intros Hsort Hrun.
  apply quad_of_best_inv in Hrun as (Hlen & _ & q & Hq & ->).
  apply order_corners_inv in Hq as (p0 & p1 & p2 & p3 & Es & _ & ->).
  destruct (Hsort by_y best by_y_strict_weak_order) as [Hperm _]. rewrite Es in Hperm.
  do 4 eexists. split; [|reflexivity].
  eapply perm_trans; [exact Hperm|].
  destruct (int_val (pt_x p0) <? int_val (pt_x p1)),
           (int_val (pt_x p2) <? int_val (pt_x p3)).
  - do 2 apply perm_skip. apply perm_swap.
  - apply Permutation_refl.
  - eapply perm_trans; [apply perm_swap|]. do 2 apply perm_skip. apply perm_swap.
  - apply perm_swap.
Qed.

End CornersMore.

Section VertexOrder.
Context {cv : OpenCV}.

(** X5.  When the four vertices have four different [y], the result does not
    depend on the order in which the polygon lists them, nor on the
    implementation of [std::sort]: two polygons with the same vertices give
    the same result on any two platforms whose sorts keep the contract. *)
Theorem labelling_ignores_vertex_order (os1 os2 : Platform) (best best' : vector Point) :
  std_sort_contract os1 -> std_sort_contract os2 ->
  Permutation best best' -> distinct_y best ->
  quad_of_best (os := os1) best = quad_of_best (os := os2) best'.
Proof.
  intros Hsort1 Hsort2 Hperm Hd. unfold quad_of_best, order_corners.
  rewrite <- (Permutation_length Hperm).
  destruct (Hsort1 by_y best by_y_strict_weak_order) as [P1 S1].
  destruct (Hsort2 by_y best' by_y_strict_weak_order) as [P2 S2].
  rewrite (sorted_by_y_unique (std_sort (Platform := os1) by_y best)
             (std_sort (Platform := os2) by_y best') S1 S2).
  - reflexivity.
  - eapply perm_trans; [apply Permutation_sym, P1|].
    eapply perm_trans; [exact Hperm | exact P2].
  - intros a b Ha Hb. apply Hd; apply (Permutation_in _ (Permutation_sym P1)); assumption.
Qed.

End VertexOrder.

(** The sort from the left keeps the contract of [std::sort] too. *)
Section LeftSort.

Lemma sort_from_left_acc lt (l sorted : vector Point) :
  strict_weak_order lt ->
  StronglySorted (fun a b => lt b a = false) sorted ->
  Permutation (sorted ++ l) (fold_left (fun acc p => Ref.insert lt p acc) l sorted) /\
  StronglySorted (fun a b => lt b a = false)
                 (fold_left (fun acc p => Ref.insert lt p acc) l sorted).
Proof.
  intros Hlt. revert sorted. induction l as [|p l IH]; intros sorted Hs; cbn [fold_left].
  - rewrite app_nil_r. split; [apply Permutation_refl | exact Hs].
  - destruct (IH (Ref.insert lt p sorted) (insert_sorted lt p sorted Hlt Hs)) as [Hp Hs'].
    split; [|exact Hs'].
    eapply perm_trans; [|exact Hp].
    eapply perm_trans; [apply Permutation_sym, Permutation_middle|].
    apply (Permutation_app_tail l (insert_perm lt p sorted)).
Qed.

Lemma left_sort_contract : std_sort_contract RefMore.platform_left.
Proof.
  intros lt l Hlt. cbn [std_sort RefMore.platform_left]. unfold RefMore.sort_from_left.
  exact (sort_from_left_acc lt l [] Hlt (SSorted_nil _)).
Qed.

End LeftSort.

(** ** The scan, once more *)

Section ScanMore.
Context {os : Platform} {cv : OpenCV}.

Lemma scan_contour_cases st c :
  scan_contour st c = st \/
  is_candidate c = true /\
  F64.ltb (fst st) (F64.fabs (contourArea (approx_of c))) = true /\
  scan_contour st c = (F64.fabs (contourArea (approx_of c)), approx_of c).
Proof.
  destruct st as [maxArea best]. unfold scan_contour, is_candidate, survives. cbn [fst].
  destruct (F64.ltb (contourArea c) (F64.of_Z 1000)); [now left|].
  destruct (length (approx_of c) =? 4)%nat; [|now left].
  destruct (F64.ltb maxArea _); [right; now repeat split | now left].
Qed.

Lemma scan_contour_ignores st c : is_candidate c = false -> scan_contour st c = st.
Proof.
  intros H. destruct (scan_contour_cases st c) as [E|(Hc & _)]; [exact E | congruence].
Qed.

Lemma candidate_incl l1 l2 p :
  (forall c, In c l1 -> In c l2) -> candidate l1 p -> candidate l2 p.
Proof. intros Hi (c & Hin & H). exists c. split; [now apply Hi | exact H]. Qed.

(** An area that is not above [m] differs from one that is. *)
Lemma SFltb_eqb_false m a b : SFltb m a = false -> SFltb m b = true -> SFeqb a b = false.
Proof.
  unfold SFltb, SFeqb, SFcompare.
  destruct m as [sm|sm| |sm mm em], a as [sa|sa| |sa ma ea], b as [sb|sb| |sb mb eb];
    try destruct sm; try destruct sa; try destruct sb;
    try discriminate; try reflexivity;
    rewrite ?Pos_compare_cont_Eq;
    repeat match goal with
           | |- context [?x ?= ?y] => destruct (Z.compare_spec x y)
           end;
    cbn [CompOpp]; intros; try discriminate; try reflexivity; lia.
Qed.

(** X6.  A contour whose approximation does not have exactly four vertices
    never changes the result, whatever its area: the result is the one the
    contours that pass both tests alone would give. *)
Theorem only_quads_matter (contours : vector (vector Point)) :
  scan_contours contours = scan_contours (filter is_candidate contours) /\
  quad_of_contours contours = quad_of_contours (filter is_candidate contours).
Proof.
  assert (E : forall st, fold_left scan_contour contours st =
                         fold_left scan_contour (filter is_candidate contours) st).
  { induction contours as [|c l IH]; intros st; cbn [filter fold_left]; [reflexivity|].
    destruct (is_candidate c) eqn:Ec; cbn [fold_left].
    - apply IH.
    - rewrite scan_contour_ignores by exact Ec. apply IH. }
  unfold quad_of_contours, scan_contours. now rewrite E.
Qed.

(** X7.  Among polygons of equal largest area the first in contour order is
    the one kept: the kept polygon had an area strictly above [maxArea] when
    its contour was visited, so no candidate before it has the same area, and
    no candidate after it has a larger one. *)
Theorem first_largest_is_kept (contours : vector (vector Point)) :
  snd (scan_contours contours) <> [] ->
  exists before c after,
    contours = before ++ c :: after /\
    is_candidate c = true /\
    scan_contours contours = (F64.fabs (contourArea (approx_of c)), approx_of c) /\
    F64.ltb (fst (scan_contours before)) (F64.fabs (contourArea (approx_of c))) = true /\
    (forall p, candidate before p ->
       SFeqb (F64.fabs (contourArea p)) (F64.fabs (contourArea (approx_of c))) = false) /\
    (forall p, candidate after p ->
       F64.ltb (F64.fabs (contourArea (approx_of c))) (F64.fabs (contourArea p)) = false).
Proof.
  induction contours as [|c l IH] using rev_ind; intros Hbest; [now elim Hbest|].
  assert (Estep : scan_contours (l ++ [c]) = scan_contour (scan_contours l) c)
    by (unfold scan_contours; now rewrite fold_left_app).
  pose proof (scan_inv_contours (l ++ [c])) as [Hmax _].
  destruct (scan_contour_cases (scan_contours l) c) as [E|(Hc & Hlt & E)].
  - rewrite Estep, E in Hbest, Hmax |- *.
    destruct (IH Hbest) as (before & c0 & after & -> & Hc0 & Hs & Hlt & Hb & _).
    exists before, c0, (after ++ [c]). rewrite <- app_assoc. cbn [app].
    repeat split; try assumption.
    intros p Hp. rewrite Hs in Hmax. cbn [fst] in Hmax. apply Hmax.
    revert Hp. apply candidate_incl. intros x Hx. rewrite <- app_assoc. cbn [app].
    apply in_or_app. right. now right.
  - exists l, c, []. rewrite Estep, E. repeat split; try assumption.
    + intros p Hp. destruct (scan_inv_contours l) as [Hl _].
      exact (SFltb_eqb_false _ _ _ (Hl p Hp) Hlt).
    + intros p (x & [] & _).
Qed.

End ScanMore.

(** ** The size asked of the warp *)

Section SizeMore.
Context {os : Platform} {cv : OpenCV}.

Lemma to_int_not_negative d z :
  F64.ltb d (F64.of_Z 0) = false -> F64.to_int d = Some z -> 0 <= z.
Proof.
  destruct d as [s|s| |s m e]; cbn [F64.to_int]; try discriminate.
  - intros _ H. injection H as <-. lia.
  - destruct s; [discriminate|]. intros _.
    destruct (in_int _); [|discriminate]. intros H. injection H as <-.
    cbn [cond_Zopp]. unfold F64.trunc_mag.
    destruct (Z.leb_spec 0 e).
    + assert (0 <= 2 ^ e) by (apply Z.pow_nonneg; lia). nia.
    + apply Z.div_pos; [lia | apply Z.pow_pos_nonneg; lia].
Qed.

Lemma max_not_negative a b :
  F64.ltb a (F64.of_Z 0) = false -> F64.ltb b (F64.of_Z 0) = false ->
  F64.ltb (F64.max a b) (F64.of_Z 0) = false.
Proof. intros Ha Hb. unfold F64.max. now destruct (F64.ltb a b). Qed.

(** A double of the format that is at least 0 and below 1 casts to 0. *)
Lemma to_int_below_one d :
  valid_binary F64.prec F64.emax d = true ->
  F64.ltb d (F64.of_Z 0) = false -> F64.ltb d (F64.of_Z 1) = true ->
  F64.to_int d = Some 0.
Proof.
  change (F64.of_Z 1) with (S754_finite false 4503599627370496 (-52)).
  destruct d as [s|s| |s m e]; intros Hv H0 Hlt.
  - reflexivity.
  - destruct s; discriminate.
  - discriminate.
  - destruct s; [discriminate|]. clear H0.
    assert (Hm : Zpos m < 2 ^ 53).
    { cbn [valid_binary] in Hv. unfold bounded, canonical_mantissa, fexp, emin in Hv.
      apply andb_true_iff in Hv as [Hc _]. apply Z.eqb_eq in Hc.
      rewrite Zdigits_log2 in Hc. unfold F64.prec, F64.emax in Hc.
      pose proof (digits_bounds (Zpos m) eq_refl) as [_ Hb].
      eapply Z.lt_le_trans; [exact Hb|]. apply Z.pow_le_mono_r; lia. }
    assert (Hq : Zpos m / 2 ^ (- e) = 0 /\ e < 0).
    { unfold F64.ltb, SFltb, SFcompare in Hlt. rewrite Pos_compare_cont_Eq in Hlt.
      destruct (Z.compare_spec e (-52)) as [->|He|He]; try discriminate.
      - destruct (Z.compare_spec (Zpos m) 4503599627370496); try discriminate.
        split; [|lia]. apply Z.div_small. change (2 ^ (- -52)) with 4503599627370496. lia.
      - split; [|lia]. apply Z.div_small. split; [lia|].
        eapply Z.lt_le_trans; [exact Hm|]. apply Z.pow_le_mono_r; lia. }
    destruct Hq as [Hq He]. cbn [F64.to_int cond_Zopp]. unfold F64.trunc_mag.
    destruct (Z.leb_spec 0 e); [lia|]. now rewrite Hq.
Qed.

(** X8.  With a [hypot] that is never below zero, [enhanceAndWarp] never
    asks [warpPerspective] for a negative width or height: the image it hands
    to [imwrite] is the one of a size whose two components are at least 0. *)
Theorem requested_size_is_never_negative inputPath outputPath polygon result img params ok :
  hypot_contract os ->
  enhanceAndWarp inputPath outputPath polygon =
  Some (result, [IMWRITE outputPath img params ok]) ->
  exists cols rows,
    0 <= cols /\ 0 <= rows /\
    F64.to_int (maxWidth (src_point (firstn 8 polygon))) = Some cols /\
    F64.to_int (maxHeight (src_point (firstn 8 polygon))) = Some rows /\
    img = rectified (imread inputPath) (firstn 8 polygon) cols rows.
Proof.
  intros Hhyp Hrun.
  destruct (enhanceAndWarp_cases inputPath outputPath polygon)
    as [[_ E]|[(_ & _ & E)|(_ & _ & E)]]; rewrite E in Hrun; try discriminate.
  destruct (F64.to_int (maxWidth _)) as [cols|] eqn:Hw; [|discriminate].
  destruct (F64.to_int (maxHeight _)) as [rows|] eqn:Hh; [|discriminate].
  cbv zeta in Hrun. exists cols, rows.
  repeat split.
  - eapply to_int_not_negative; [|exact Hw]. apply max_not_negative; apply Hhyp.
  - eapply to_int_not_negative; [|exact Hh]. apply max_not_negative; apply Hhyp.
  - set (e := rectified (imread inputPath) (firstn 8 polygon) cols rows) in *.
    now injection Hrun as _ <- _ _.
Qed.

(** X9.  Corners need not coincide for the warp to be asked for an empty
    size: when both horizontal sides are shorter than one pixel, the width
    passed to [warpPerspective] is 0, and the call goes on to [imwrite]. *)
Theorem subpixel_width_is_zero inputPath outputPath polygon rows :
  Mat_empty (imread inputPath) = false ->
  (8 <= length polygon)%nat ->
  let w := maxWidth (src_point (firstn 8 polygon)) in
  valid_binary F64.prec F64.emax w = true ->
  F64.ltb w (F64.of_Z 0) = false ->
  F64.ltb w (F64.of_Z 1) = true ->
  F64.to_int (maxHeight (src_point (firstn 8 polygon))) = Some rows ->
  let enhanced := rectified (imread inputPath) (firstn 8 polygon) 0 rows in
  let ok := imwrite outputPath enhanced [IMWRITE_JPEG_QUALITY; 95] in
  enhanceAndWarp inputPath outputPath polygon =
  Some (ok, [IMWRITE outputPath enhanced [IMWRITE_JPEG_QUALITY; 95] ok]).
Proof.
  intros Himg Hlen w Hv H0 H1 Hh.
  apply enhanceAndWarp_runs; try assumption.
  now apply to_int_below_one.
Qed.

End SizeMore.

(** ** The reference [hypot] keeps its promise *)

Section ReferenceHypot.

Lemma binary_round_aux_not_negative p e m ex l :
  SFltb (binary_round_aux p e false m ex l) (S754_zero false) = false.
Proof.
  unfold binary_round_aux.
  destruct (shr_fexp p e m ex l) as [mrs' e'].
  destruct (shr_fexp p e _ e' loc_Exact) as [mrs'' e''].
  destruct (shr_m mrs'') as [|q|q]; try reflexivity.
  destruct (e'' <=? e - p); reflexivity.
Qed.

Lemma binary_normalize_not_negative p e m ex :
  SFltb (binary_normalize p e (Zpos m) ex false) (S754_zero false) = false.
Proof.
  unfold binary_normalize, binary_round.
  destruct (shl_align m ex _) as [mz ez]. apply binary_round_aux_not_negative.
Qed.

Lemma SFsqrt_not_negative x :
  SFltb (SFsqrt F64.prec F64.emax x) (S754_zero false) = false.
Proof.
  destruct x as [s|s| |s m e]; try destruct s; try reflexivity.
  unfold SFsqrt. destruct (SFsqrt_core_binary _ _ _ _) as [[mz ez] lz].
  apply binary_round_aux_not_negative.
Qed.

Lemma narrowing_not_negative d :
  SFltb d (S754_zero false) = false -> SFltb (F32.of_double d) (S754_zero false) = false.
Proof.
  destruct d as [s|s| |s m e]; try (intros H; exact H).
  destruct s; [discriminate|]. intros _. apply binary_normalize_not_negative.
Qed.

Lemma widening_not_negative f :
  SFltb f (S754_zero false) = false -> SFltb (F64.of_float f) (S754_zero false) = false.
Proof.
  destruct f as [s|s| |s m e]; try (intros H; exact H).
  destruct s; [discriminate|]. intros _. apply binary_normalize_not_negative.
Qed.

Lemma reference_hypot_contract : hypot_contract Ref.platform.
Proof.
  intros a b. cbn [hypot Ref.platform]. unfold Ref.hypot_of_floats, F64.ltb.
  change (F64.of_Z 0) with (S754_zero false).
  apply widening_not_negative, narrowing_not_negative, SFsqrt_not_negative.
Qed.

End ReferenceHypot.

(** ** Runs of the further properties on the reference platform *)

Section MoreReferenceRuns.
#[local] Existing Instance Ref.platform.
#[local] Existing Instance Ref.opencv.

Example warp_scenario :
  enhanceAndWarp "page.jpg" "out.jpg" Ref.scenario_polygon =
  Some (JNI_TRUE,
        [IMWRITE "out.jpg" (rectified Ref.page Ref.scenario_polygon 600 450)
           [IMWRITE_JPEG_QUALITY; 95] true]).
Proof. reflexivity. Qed.


(** X2 on the scenario: the call returns [JNI_TRUE]. *)
Lemma enhanceAndWarp_outcomes_scenario :
  Mat_empty (imread "page.jpg") = false /\ (8 <= length Ref.scenario_polygon)%nat /\
  exists img,
    [IMWRITE "out.jpg" (rectified Ref.page Ref.scenario_polygon 600 450)
       [IMWRITE_JPEG_QUALITY; 95] true] =
    [IMWRITE "out.jpg" img [IMWRITE_JPEG_QUALITY; 95] true] /\
    imwrite "out.jpg" img [IMWRITE_JPEG_QUALITY; 95] = true.
Proof.
  exact (proj1 (enhanceAndWarp_outcomes (os := Ref.platform) (cv := Ref.opencv)
                  "page.jpg" "out.jpg" Ref.scenario_polygon JNI_TRUE _ warp_scenario)
               eq_refl).
Defined.

(** X4 on the document. *)
Lemma returned_corners_are_the_vertices_document :
  exists tl tr br bl,
    Permutation Ref.document [tl; tr; br; bl] /\
    Ref.scenario_polygon = coords_of (tl, tr, br, bl).
Proof.
  exact (returned_corners_are_the_vertices (os := Ref.platform) (cv := Ref.opencv)
           Ref.document Ref.scenario_polygon [] reference_sort_contract eq_refl).
Defined.

(** X5: the document with its first and third vertices exchanged, sorted by
    an insertion sort from the right on one platform and from the left on the
    other. *)
Lemma labelling_ignores_vertex_order_document :
  quad_of_best (os := Ref.platform) (cv := Ref.opencv) Ref.document =
  quad_of_best (os := RefMore.platform_left) (cv := Ref.opencv) RefMore.document_reversed.
Proof.
  apply (labelling_ignores_vertex_order (cv := Ref.opencv)
           Ref.platform RefMore.platform_left
           Ref.document RefMore.document_reversed
           reference_sort_contract left_sort_contract).
  - apply (Permutation_app_tail [Ref.pt 100 120]
             (l := [Ref.pt 650 90; Ref.pt 680 540; Ref.pt 80 560])
             (l' := [Ref.pt 80 560; Ref.pt 680 540; Ref.pt 650 90])).
    eapply perm_trans; [apply perm_swap|].
    eapply perm_trans; [apply perm_skip, perm_swap|]. apply perm_swap.
  - intros a b Ha Hb. cbn in Ha, Hb.
    destruct Ha as [<-|[<-|[<-|[<-|[]]]]], Hb as [<-|[<-|[<-|[<-|[]]]]];
      cbn; intros H; try reflexivity; discriminate H.
Defined.

(** X6 on the page: the triangle changes nothing either. *)
Lemma only_quads_matter_page :
  filter is_candidate (Ref.im_outlines Ref.page) = [Ref.label; Ref.document] /\
  quad_of_contours (Ref.im_outlines Ref.page) =
  quad_of_contours (filter is_candidate (Ref.im_outlines Ref.page)).
Proof.
  split; [reflexivity|].
  exact (proj2 (only_quads_matter (os := Ref.platform) (cv := Ref.opencv)
                  (Ref.im_outlines Ref.page))).
Defined.

(** X7: of two labels of area 5000 the first is kept. *)
Lemma first_largest_is_kept_twins :
  snd (scan_contours RefMore.twins) = Ref.label /\
  exists before c after,
    RefMore.twins = before ++ c :: after /\
    is_candidate c = true /\
    scan_contours RefMore.twins = (F64.fabs (contourArea (approx_of c)), approx_of c) /\
    F64.ltb (fst (scan_contours before)) (F64.fabs (contourArea (approx_of c))) = true /\
    (forall p, candidate before p ->
       SFeqb (F64.fabs (contourArea p)) (F64.fabs (contourArea (approx_of c))) = false) /\
    (forall p, candidate after p ->
       F64.ltb (F64.fabs (contourArea (approx_of c))) (F64.fabs (contourArea p)) = false).
Proof.
  split; [reflexivity|].
  apply (first_largest_is_kept (cv := Ref.opencv) RefMore.twins).
  discriminate.
Defined.

(** X8 on the scenario. *)
Lemma requested_size_is_never_negative_scenario :
  exists cols rows,
    0 <= cols /\ 0 <= rows /\
    F64.to_int (maxWidth (src_point (firstn 8 Ref.scenario_polygon))) = Some cols /\
    F64.to_int (maxHeight (src_point (firstn 8 Ref.scenario_polygon))) = Some rows /\
    rectified Ref.page Ref.scenario_polygon 600 450 =
    rectified (imread "page.jpg") (firstn 8 Ref.scenario_polygon) cols rows.
Proof.
  exact (requested_size_is_never_negative (os := Ref.platform) (cv := Ref.opencv)
           "page.jpg" "out.jpg" Ref.scenario_polygon JNI_TRUE _ _ _
           reference_hypot_contract warp_scenario).
Defined.

(** X9: a sliver half a pixel wide is warped with a width of 0. *)
Lemma subpixel_width_is_zero_sliver :
  maxWidth (src_point RefMore.sliver) = S754_finite false 4503599627370496 (-53) /\
  enhanceAndWarp "page.jpg" "out.jpg" RefMore.sliver =
  Some (true,
        [IMWRITE "out.jpg" (rectified Ref.page RefMore.sliver 0 3)
           [IMWRITE_JPEG_QUALITY; 95] true]).
Proof.
  split; [reflexivity|].
  exact (subpixel_width_is_zero (os := Ref.platform) (cv := Ref.opencv)
           "page.jpg" "out.jpg" RefMore.sliver 3
           eq_refl (le_n 8) eq_refl eq_refl eq_refl eq_refl).
Defined.

(** X10: the array detected on the page is warped. *)
Lemma detected_quad_is_warped_page :
  enhanceAndWarp "page.jpg" "out.jpg" Ref.scenario_polygon = None \/
  exists img ok,
    enhanceAndWarp "page.jpg" "out.jpg" Ref.scenario_polygon =
    Some (ok, [IMWRITE "out.jpg" img [IMWRITE_JPEG_QUALITY; 95] ok]).
Proof.
  exact (detected_quad_is_warped (os := Ref.platform) (cv := Ref.opencv)
           "page.jpg" "out.jpg" Ref.scenario_polygon [] detect_page).
Defined.

End MoreReferenceRuns.
